(** * go-themis, consensus/dpos/api.go: the read-only DPoS query API

    A shallow embedding of the RPC facade [API] of package [dpos]:
    header resolution, the system-contract lookup, the contract queries
    and the producer ranking of [GetAllProducers].

    Conventions.
    - [*big.Int] values are [Z]; a pointer that the code tests against or
      dereferences without a test is an [option].
    - [big.Int.Uint64] and [big.Int.Int64] keep the low 64 bits of the
      magnitude, as math/big computes them; [x.Cmp(y) > 0] is [x >? y] and
      [x.Cmp(y) < 0] is [x <? y].
    - A Go call ends in a value, a returned [error], or a run-time panic
      (nil dereference, index out of range): the three cases of [Result].
    - Calls to the collaborators ([api.chain], [api.dpos.Call]) are
      recorded, in order, in a log of [Event]s carried beside the result. *)

From Stdlib Require Import ZArith List String Bool Lia.
From Stdlib Require Import Sorting.Sorted Sorting.Permutation.
Import ListNotations.
Local Open Scope Z_scope.

(** ** math/big conversions *)

Module Big.

Definition two64 : Z := 2 ^ 64.
Definition two63 : Z := 2 ^ 63.

(** [low64(x.abs)]: the least significant word of the magnitude. *)
Definition low64 (x : Z) : Z := Z.abs x mod two64.

(** [x.Uint64()]. *)
Definition Uint64 (x : Z) : Z := low64 x.

(** The conversion [int64(u)] of a [uint64]. *)
Definition int64_of_uint64 (u : Z) : Z :=
  if u <? two63 then u else u - two64.

(** Negation in [int64], wrapping at [-2^63]. *)
Definition neg_int64 (v : Z) : Z := int64_of_uint64 ((- v) mod two64).

(** [x.Int64()]: [v := int64(low64(x.abs)); if x.neg { v = -v }]. *)
Definition Int64 (x : Z) : Z :=
  let v := int64_of_uint64 (low64 x) in
  if x <? 0 then neg_int64 v else v.

End Big.

(** ** Errors, results and the event log *)

(** [common.Address] is a 20-byte array; it is kept as the number those
    bytes spell. Call payloads are byte strings. *)
Definition Address : Type := N.
Definition bytes : Type := list Byte.byte.

(** The [error] values that reach the API. [errors_New msg] is
    [errors.New(msg)]; [errUnknownBlock] and [errTooFewProducers] are the
    package-level values of [dpos] declared beside the engine;
    [errForeign] stands for whatever a collaborator hands back. *)
Inductive error : Type :=
| errors_New (msg : string)
| errUnknownBlock
| errTooFewProducers
| errForeign (code : Z).

Definition errInvalidInput : error := errors_New "invalid input".

Definition regContract : string := "system.regContract".
Definition voteContract : string := "system.voteContract".

Inductive Result (A : Type) : Type :=
| Ok (a : A)
| Err (e : error)
| Panic.
Arguments Ok {A} a.
Arguments Err {A} e.
Arguments Panic {A}.

(** [types.Header], the three fields the API reads. *)
Record Header : Type := mkHeader {
  Number : Z;
  ActiveProducers : list Address;
  PendingProducers : list Address
}.

(** [core.NewCallMsg(to, data, height)]. *)
Record CallMsg : Type := NewCallMsg {
  To : Address;
  Data : bytes;
  Height : Z
}.

Inductive Event : Type :=
| EvCurrentHeader
| EvGetHeaderByNumber (number : Z)
| EvCall (msg : CallMsg).

(** A computation: the collaborator calls made so far, and the outcome. *)
Definition M (A : Type) : Type := (list Event * Result A)%type.

Definition ret {A} (a : A) : M A := ([], Ok a).
Definition fail {A} (e : error) : M A := ([], Err e).
Definition panic {A} : M A := ([], Panic).

Definition bind {A B} (m : M A) (k : A -> M B) : M B :=
  match m with
  | (t, Ok a) => let (t', r) := k a in (t ++ t', r)
  | (t, Err e) => (t, Err e)
  | (t, Panic) => (t, Panic)
  end.

Notation "x <- m ;; k" := (bind m (fun x => k))
  (at level 61, m at next level, right associativity).
Notation "' pat <- m ;; k" := (bind m (fun x => match x with pat => k end))
  (at level 61, pat pattern, m at next level, right associativity).

(** [if err != nil { return nil, err }] after a pure call. *)
Definition orReturn {A} (r : error + A) : M A :=
  match r with
  | inl e => fail e
  | inr a => ret a
  end.

(** [if err != nil { return nil, e' }]: the error is replaced. *)
Definition orElse {A} (m : M A) (e' : error) : M A :=
  match m with
  | (t, Err _) => (t, Err e')
  | other => other
  end.

(** Dereference of a pointer that may be nil. *)
Definition deref {A} (p : option A) : M A :=
  match p with
  | Some a => ret a
  | None => panic
  end.

Definition trace {A} (m : M A) : list Event := fst m.
Definition outcome {A} (m : M A) : Result A := snd m.

(** [log t m] is [m] run after the calls [t]. *)
Definition log {A} (t : list Event) (m : M A) : M A := (t ++ fst m, snd m).

(** ** Result records of api.go *)

Record ProducerInfo : Type := mkProducerInfo {
  Addr : Address;
  Weight : Z
}.

Record ProducersInfo : Type := mkProducersInfo {
  Producers : list ProducerInfo;
  Size : Z
}.

Module Vote.
Record Voteinfo : Type := mkVoteinfo {
  Proxy : Address;
  Producers : list Address;
  Staked : Z;
  Weight : Z
}.
End Vote.

Module Proposal.
Record ProposalInfo : Type := mkProposalInfo {
  Id : Z;
  Status : bool;
  Proposer : Address;
  ProposeTime : Z;
  MaliciousBP : Address;
  Keys : list bytes;
  Values : list Z;
  Flag : Z;
  ApproveVoteCount : Z;
  DisapproveCount : Z
}.
End Proposal.

(** ** Collaborators *)

(** [consensus.ChainReader], the two methods the API calls. Both return a
    [*types.Header], which may be nil. [GetHeaderByNumber] takes a
    [uint64]. The record is one state of the chain: an operation that
    calls [CurrentHeader()] twice ([GetAllProducers] and [GetVoteInfo],
    through [GetSystemContract]) gets the same answer both times. Module
    [Rel] below lets every call answer on its own. *)
Record ChainReader : Type := mkChainReader {
  CurrentHeader : option Header;
  GetHeaderByNumber : Z -> option Header
}.

(** Arguments handed to [abi.ABI.Pack] by this file. *)
Inductive abi_arg : Type :=
| ArgString (s : string)
| ArgAddressPtr (a : option Address).

(** [abi.ABI]: [Pack], and [Unpack] at each of the four output shapes the
    API passes to it. *)
Record ABI : Type := mkABI {
  Pack : string -> list abi_arg -> error + bytes;
  UnpackAddress : string -> bytes -> error + Address;
  UnpackProducers : string -> bytes -> error + (list Address * list Z * Z);
  UnpackVoteinfo : string -> bytes -> error + Vote.Voteinfo;
  UnpackProposal : string -> bytes -> error + Proposal.ProposalInfo
}.

(** [core.SystemContractCaller]. *)
Record SystemContractCaller : Type := mkSystemContractCaller {
  MainABI : ABI;
  RegABI : ABI;
  VoteABI : ABI
}.

(** [Dpos]: the read-only evaluation entry point [Call] and the engine's
    own [systemContract]. *)
Record Dpos : Type := mkDpos {
  Call : CallMsg -> error + bytes;
  systemContract : SystemContractCaller
}.

Record API : Type := NewAPI {
  chain : ChainReader;
  dpos : Dpos
}.

(** What the file takes from package [core]. *)
Record CorePkg : Type := mkCorePkg {
  NewSystemContractCaller : SystemContractCaller;
  MainSystemContractAddr : Address
}.

(** Collaborator calls, logged. *)
Definition chain_CurrentHeader (api : API) : M (option Header) :=
  ([EvCurrentHeader], Ok (CurrentHeader (chain api))).

Definition chain_GetHeaderByNumber (api : API) (number : Z) : M (option Header) :=
  ([EvGetHeaderByNumber number], Ok (GetHeaderByNumber (chain api) number)).

Definition dpos_Call (api : API) (msg : CallMsg) : M bytes :=
  ([EvCall msg],
   match Call (dpos api) msg with
   | inl e => Err e
   | inr data => Ok data
   end).

(** ** Header resolution

    The opening statements shared, word for word, by [GetActiveProducers],
    [GetPendingProducer], [GetAllProducers], [GetVoteInfo] and
    [GetProposal]. [&&] and [||] evaluate left to right and stop early, so
    [header.Number] is read only when the tests before it let it be. *)
Definition resolveHeader (api : API) (blockNumber : option Z) : M Header :=
  header <- chain_CurrentHeader api ;;
  header <-
    match blockNumber with
    | None => ret header
    | Some bn =>
        if bn >? 0 then
          cur <- deref header ;;
          if bn <? Number cur then
            chain_GetHeaderByNumber api (Big.Uint64 bn)
          else if bn >? Number cur then fail errInvalidInput
          else ret header
        else if bn <? 0 then fail errInvalidInput
        else
          cur <- deref header ;;
          if bn >? Number cur then fail errInvalidInput
          else ret header
    end ;;
  match header with
  | None => fail errUnknownBlock
  | Some h => ret h
  end.

(** ** GetSystemContract *)
Section Facade.

Variable core : CorePkg.

Definition GetSystemContract (api : API) (contractName : string) : M Address :=
  if String.eqb contractName "" then fail (errors_New "null string")
  else
    header <- chain_CurrentHeader api ;;
    inputData <- orReturn (Pack (MainABI (systemContract (dpos api)))
                           "getSystemContract" [ArgString contractName]) ;;
    header <- deref header ;;
    let call := NewCallMsg (MainSystemContractAddr core) inputData
                           (Big.Uint64 (Number header)) in
    data <- dpos_Call api call ;;
    let caller := NewSystemContractCaller core in
    res <- orReturn (UnpackAddress (MainABI caller) "getSystemContract" data) ;;
    ret res.

(** ** GetActiveProducers, GetPendingProducer *)

Definition GetActiveProducers (api : API) (blockNumber : option Z)
  : M (list Address) :=
  header <- resolveHeader api blockNumber ;;
  ret (ActiveProducers header).

Definition GetPendingProducer (api : API) (blockNumber : option Z)
  : M (list Address) :=
  header <- resolveHeader api blockNumber ;;
  ret (PendingProducers header).

(** ** Ranking (GetAllProducers, from "Sort all weight of producers") *)

(** [sortNum{serial, num}]: a weight and the index it was read at. *)
Record sortNum : Type := mkSortNum {
  serial : nat;
  num : Z
}.

Definition sortNumSlice : Type := list sortNum.

(** [for i, voteWeight := range weight { sortTable = append(sortTable,
    &sortNum{i, voteWeight}) }], entered with index [i] and the table
    built so far. *)
Fixpoint appendWeights (weight : list Z) (i : nat) (sortTable : sortNumSlice)
  : sortNumSlice :=
  match weight with
  | [] => sortTable
  | voteWeight :: rest =>
      appendWeights rest (S i) (sortTable ++ [mkSortNum i voteWeight])
  end.

(** The order of the ranking: heavier first, and of two equal weights the
    one read earlier. *)
Definition outranks (a b : sortNum) : bool :=
  (num b <? num a) || ((num a =? num b) && (serial a <? serial b)%nat).

Fixpoint place (x : sortNum) (s : sortNumSlice) : sortNumSlice :=
  match s with
  | [] => [x]
  | y :: rest => if outranks y x then y :: place x rest else x :: y :: rest
  end.

Fixpoint rankSort (s : sortNumSlice) : sortNumSlice :=
  match s with
  | [] => []
  | x :: rest => place x (rankSort rest)
  end.

(** Modelled from the spec: [sortNumSlice.GetTop] is declared in package
    [dpos] outside api.go. Section 4.4 gives its contract: sort the pairs
    by weight descending, break ties by ascending original index, and
    return the first [targetCount] entries of the sorted sequence. *)
Definition GetTop (s : sortNumSlice) (n : Z) : sortNumSlice :=
  firstn (Z.to_nat n) (rankSort s).

(** [for i = 0; i < getNumber; i++ { topProducers = append(topProducers,
    ProducerInfo{producersAddr[sortedProducers[i].serial],
    sortedProducers[i].num}) }], entered at index [i] with [todo] rounds
    left. An index outside a slice panics. *)
Fixpoint collectTop (producersAddr : list Address)
    (sortedProducers : sortNumSlice) (i todo : nat)
    (topProducers : list ProducerInfo) : M (list ProducerInfo) :=
  match todo with
  | O => ret topProducers
  | S todo' =>
      sn <- deref (nth_error sortedProducers i) ;;
      addr <- deref (nth_error producersAddr (serial sn)) ;;
      collectTop producersAddr sortedProducers (S i) todo'
                 (topProducers ++ [mkProducerInfo addr (num sn)])
  end.

(** The size policy: "Negative number for all producers, zero for pending
    producers, positive number for producers of given number." [len] is
    [uint64(len(weight))], [size] is [sizeNumber.Int64()]. *)
Definition selectNumber (len size amount : Z) : M Z :=
  if size <? 0 then ret len
  else if size =? 0 then
    if Big.Uint64 amount >? len then fail errTooFewProducers
    else ret (Big.Uint64 amount)
  else if size >? len then ret len
  else ret size.

(** Lines 158-200 of [GetAllProducers], on the values decoded from the
    contract's answer. *)
Definition rankProducers (producersAddr : list Address) (weight : list Z)
    (amount : Z) (sizeNumber : option Z) : M ProducersInfo :=
  let sortTable := appendWeights weight 0 [] in
  let len := Z.of_nat (List.length weight) in
  sizeNumber <- deref sizeNumber ;;
  let size := Big.Int64 sizeNumber in
  getNumber <- selectNumber len size amount ;;
  let sortedProducers := GetTop sortTable getNumber in
  topProducers <- collectTop producersAddr sortedProducers 0
                             (Z.to_nat getNumber) [] ;;
  ret (mkProducersInfo topProducers amount).

(** ** GetAllProducers *)

(** Lines 105 and 119-156, with the header already resolved: find the
    registration contract, call [getAllProducersInfo] at the resolved
    height and decode. *)
Definition fetchProducers (api : API) (header : Header)
  : M (list Address * list Z * Z) :=
  let methodString := "getAllProducersInfo"%string in
  sysAddress <- orElse (GetSystemContract api regContract)
                       (errors_New "can't get reg contract address") ;;
  let caller := NewSystemContractCaller core in
  inputData <- orReturn (Pack (RegABI caller) methodString []) ;;
  let call := NewCallMsg sysAddress inputData (Big.Uint64 (Number header)) in
  data <- dpos_Call api call ;;
  orReturn (UnpackProducers (RegABI caller) methodString data).

Definition GetAllProducers_at (api : API) (sizeNumber : option Z)
    (header : Header) : M ProducersInfo :=
  ' (producersAddr, weight, amount) <- fetchProducers api header ;;
  rankProducers producersAddr weight amount sizeNumber.

Definition GetAllProducers (api : API) (blockNumber sizeNumber : option Z)
  : M ProducersInfo :=
  header <- resolveHeader api blockNumber ;;
  GetAllProducers_at api sizeNumber header.

(** ** GetVoteInfo *)

Definition GetVoteInfo_at (api : API) (addr : option Address)
    (header : Header) : M Vote.Voteinfo :=
  voteAddress <- orElse (GetSystemContract api voteContract)
                        (errors_New "can't get vote contract address") ;;
  let caller := NewSystemContractCaller core in
  inputData <- orReturn (Pack (VoteABI caller) "getVoteInfo" [ArgAddressPtr addr]) ;;
  let call := NewCallMsg voteAddress inputData (Big.Uint64 (Number header)) in
  data <- dpos_Call api call ;;
  orReturn (UnpackVoteinfo (VoteABI caller) "getVoteInfo" data).

Definition GetVoteInfo (api : API) (addr : option Address)
    (blockNumber : option Z) : M Vote.Voteinfo :=
  header <- resolveHeader api blockNumber ;;
  GetVoteInfo_at api addr header.

(** ** GetProposal *)

Definition GetProposal_at (api : API) (header : Header)
  : M Proposal.ProposalInfo :=
  let caller := NewSystemContractCaller core in
  inputData <- orReturn (Pack (MainABI caller) "getProposal" []) ;;
  let call := NewCallMsg (MainSystemContractAddr core) inputData
                         (Big.Uint64 (Number header)) in
  data <- dpos_Call api call ;;
  orReturn (UnpackProposal (MainABI caller) "getProposal" data).

Definition GetProposal (api : API) (blockNumber : option Z)
  : M Proposal.ProposalInfo :=
  header <- resolveHeader api blockNumber ;;
  GetProposal_at api header.

(** ** The five operations that take a height, as one family *)

Inductive HeightOp : Type :=
| OpGetActiveProducers
| OpGetPendingProducer
| OpGetAllProducers (sizeNumber : option Z)
| OpGetVoteInfo (addr : option Address)
| OpGetProposal.

Inductive Answer : Type :=
| AnsAddresses (l : list Address)
| AnsProducers (info : ProducersInfo)
| AnsVote (info : Vote.Voteinfo)
| AnsProposal (info : Proposal.ProposalInfo).

Definition mapM {A B} (f : A -> B) (m : M A) : M B :=
  (fst m,
   match snd m with
   | Ok a => Ok (f a)
   | Err e => Err e
   | Panic => Panic
   end).

(** The operation as the API exports it. *)
Definition facade (api : API) (op : HeightOp) (blockNumber : option Z)
  : M Answer :=
  match op with
  | OpGetActiveProducers => mapM AnsAddresses (GetActiveProducers api blockNumber)
  | OpGetPendingProducer => mapM AnsAddresses (GetPendingProducer api blockNumber)
  | OpGetAllProducers sizeNumber =>
      mapM AnsProducers (GetAllProducers api blockNumber sizeNumber)
  | OpGetVoteInfo addr => mapM AnsVote (GetVoteInfo api addr blockNumber)
  | OpGetProposal => mapM AnsProposal (GetProposal api blockNumber)
  end.

(** What the operation does once [header] is resolved. *)
Definition facade_at (api : API) (op : HeightOp) (header : Header)
  : M Answer :=
  match op with
  | OpGetActiveProducers => ret (AnsAddresses (ActiveProducers header))
  | OpGetPendingProducer => ret (AnsAddresses (PendingProducers header))
  | OpGetAllProducers sizeNumber =>
      mapM AnsProducers (GetAllProducers_at api sizeNumber header)
  | OpGetVoteInfo addr => mapM AnsVote (GetVoteInfo_at api addr header)
  | OpGetProposal => mapM AnsProposal (GetProposal_at api header)
  end.

End Facade.

(** ** A small chain to run the API on

    Current height 10; headers 1 to 9 are in storage except header 7,
    which is missing; header [n] lists the producers [n] and [n+1] as
    active and [n+2] as pending. The codec packs a call as the bytes of
    its method name; the registry answers address 77; the registration
    contract reports the producers, weights and count it is given. *)
Module Demo.

Definition header_at (n : Z) : Header :=
  mkHeader n [Z.to_N n; Z.to_N (n + 1)] [Z.to_N (n + 2)].

Definition chain0 : ChainReader :=
  mkChainReader (Some (header_at 10))
    (fun n => if (0 <? n) && (n <? 10) && negb (n =? 7)
              then Some (header_at n) else None).

Definition vote0 : Vote.Voteinfo := Vote.mkVoteinfo 5%N [1%N; 2%N] 100 40.

Definition proposal0 : Proposal.ProposalInfo :=
  Proposal.mkProposalInfo 1 true 3%N 1000 4%N [] [] 0 2 1.

Definition abi0 (producersAddr : list Address) (weight : list Z) (amount : Z)
  : ABI :=
  mkABI (fun name _ => inr (list_byte_of_string name))
        (fun _ _ => inr 77%N)
        (fun _ _ => inr (producersAddr, weight, amount))
        (fun _ _ => inr vote0)
        (fun _ _ => inr proposal0).

Definition caller0 (producersAddr : list Address) (weight : list Z)
    (amount : Z) : SystemContractCaller :=
  let abi := abi0 producersAddr weight amount in
  mkSystemContractCaller abi abi abi.

Definition core0 (producersAddr : list Address) (weight : list Z)
    (amount : Z) : CorePkg :=
  mkCorePkg (caller0 producersAddr weight amount) 1%N.

Definition api0 (producersAddr : list Address) (weight : list Z)
    (amount : Z) : API :=
  NewAPI chain0 (mkDpos (fun msg => inr (Data msg))
                        (caller0 producersAddr weight amount)).

(** Three producers A = 11, B = 12, C = 13 with weights 5, 5, 3 and a
    recommended count of 2. *)
Definition coreABC : CorePkg := core0 [11%N; 12%N; 13%N] [5; 5; 3] 2.
Definition apiABC : API := api0 [11%N; 12%N; 13%N] [5; 5; 3] 2.

(** A chain reader that has no current header. *)
Definition apiEmpty : API :=
  NewAPI (mkChainReader None (fun _ => None))
         (mkDpos (fun msg => inr (Data msg)) (caller0 [] [] 0)).

End Demo.

(** ** The ranking step with GetTop left open

    Lines 158-200 again, with the method [sortTable.GetTop], which is
    declared outside api.go, taken as a parameter. *)
Definition rankProducersWith (getTop : sortNumSlice -> Z -> sortNumSlice)
    (producersAddr : list Address) (weight : list Z) (amount : Z)
    (sizeNumber : option Z) : M ProducersInfo :=
  let sortTable := appendWeights weight 0 [] in
  let len := Z.of_nat (List.length weight) in
  sizeNumber <- deref sizeNumber ;;
  let size := Big.Int64 sizeNumber in
  getNumber <- selectNumber len size amount ;;
  let sortedProducers := getTop sortTable getNumber in
  topProducers <- collectTop producersAddr sortedProducers 0
                             (Z.to_nat getNumber) [] ;;
  ret (mkProducersInfo topProducers amount).

(** ** A chain whose state machine is down

    The chain of [Demo], with an evaluation entry point that fails every
    call with the same foreign error. *)
Module DemoDown.

Definition down : error := errForeign 7.

Definition api : API :=
  NewAPI Demo.chain0 (mkDpos (fun _ => inl down) (Demo.caller0 [] [] 0)).

Definition core : CorePkg := Demo.core0 [] [] 0.

(** An entry point that answers the main system contract, at address 1,
    and fails every other call. *)
Definition apiLookupOnly : API :=
  NewAPI Demo.chain0
         (mkDpos (fun msg => if (To msg =? 1)%N then inr (Data msg) else inl down)
                 (Demo.caller0 [] [] 0)).

End DemoDown.

(** ** Vocabulary of the statements *)

Definition is_fetch (e : Event) : bool :=
  match e with
  | EvGetHeaderByNumber _ => true
  | _ => false
  end.

Definition is_call (e : Event) : bool :=
  match e with
  | EvCall _ => true
  | _ => false
  end.

(** [quiet p m]: no call logged by [m] satisfies [p]. *)
Definition quiet {A} (p : Event -> bool) (m : M A) : Prop :=
  Forall (fun e => p e = false) (trace m).

(** The header lookup of a call yields no header: the current header is
    missing when no height is asked for, or the height asked for lies
    strictly between 0 and the current height and storage has nothing
    under it. *)
Definition lookup_misses (api : API) (blockNumber : option Z) : Prop :=
  match blockNumber with
  | None => CurrentHeader (chain api) = None
  | Some h =>
      exists cur, CurrentHeader (chain api) = Some cur /\
                  0 < h < Number cur /\
                  GetHeaderByNumber (chain api) (Big.Uint64 h) = None
  end.

(** [ranks_before weight i j]: the producer decoded at index [i] is
    ranked ahead of the one at index [j], by heavier weight, or by equal
    weight and smaller index. *)
Definition ranks_before (weight : list Z) (i j : nat) : Prop :=
  exists wi wj,
    nth_error weight i = Some wi /\ nth_error weight j = Some wj /\
    (wj < wi \/ (wi = wj /\ (i < j)%nat)).

(** [carries producersAddr weight i p]: entry [p] pairs the address and
    the weight decoded at index [i]. *)
Definition carries (producersAddr : list Address) (weight : list Z)
    (i : nat) (p : ProducerInfo) : Prop :=
  nth_error producersAddr i = Some (Addr p) /\
  nth_error weight i = Some (Weight p).

(** The table built from [weight]. *)
Definition tableOf (weight : list Z) : sortNumSlice :=
  appendWeights weight 0 [].

Definition before (a b : sortNum) : Prop := outranks a b = true.

Definition entry_of (weight : list Z) (e : sortNum) : Prop :=
  nth_error weight (serial e) = Some (num e).

Definition picks (producersAddr : list Address) (sn : sortNum)
    (p : ProducerInfo) : Prop :=
  nth_error producersAddr (serial sn) = Some (Addr p) /\ Weight p = num sn.

(** The call [GetSystemContract] sends to the main system contract when
    the current header is [cur]. *)
Definition registryCall (core : CorePkg) (cur : Header) (inputData : bytes)
  : CallMsg :=
  NewCallMsg (MainSystemContractAddr core) inputData (Big.Uint64 (Number cur)).

(** [lookup_at_current core api cur hd h name pack t]: the log [t] of an
    operation asked for height [h] and working on header [hd] opens with
    the two header reads of the resolution, the header read of
    [GetSystemContract] and the registry call for [name] at the height of
    the current header [cur]; when that lookup yields an address and
    [pack] yields a payload, the one call that follows goes to that
    address at the height of [hd]. *)
Definition lookup_at_current (core : CorePkg) (api : API) (cur hd : Header)
    (h : Z) (name : string) (pack : error + bytes) (t : list Event) : Prop :=
  forall inReg,
    Pack (MainABI (systemContract (dpos api))) "getSystemContract"
         [ArgString name] = inr inReg ->
    exists rest,
      t = [EvCurrentHeader; EvGetHeaderByNumber (Big.Uint64 h);
           EvCurrentHeader; EvCall (registryCall core cur inReg)] ++ rest /\
      (forall data sysAddress inputData,
         Call (dpos api) (registryCall core cur inReg) = inr data ->
         UnpackAddress (MainABI (NewSystemContractCaller core))
                       "getSystemContract" data = inr sysAddress ->
         pack = inr inputData ->
         rest = [EvCall (NewCallMsg sysAddress inputData
                                    (Big.Uint64 (Number hd)))]).

(** How often a computation uses a collaborator: the number of logged
    calls that satisfy [p]. *)
Definition uses {A} (p : Event -> bool) (m : M A) : nat :=
  List.length (filter p (trace m)).

Definition is_current (e : Event) : bool :=
  match e with
  | EvCurrentHeader => true
  | _ => false
  end.

(** The largest number of evaluation calls an operation makes. *)
Definition calls_bound (op : HeightOp) : nat :=
  match op with
  | OpGetActiveProducers | OpGetPendingProducer => 0
  | OpGetAllProducers _ | OpGetVoteInfo _ => 2
  | OpGetProposal => 1
  end.

(** Where a resolved header comes from: it is the current header, for an
    absent height, height 0 or the current height; or it is what storage
    holds under a height strictly between 0 and the current height. *)
Definition header_origin (api : API) (blockNumber : option Z) (hd : Header)
  : Prop :=
  exists cur,
    CurrentHeader (chain api) = Some cur /\
    match blockNumber with
    | None => hd = cur
    | Some h =>
        (hd = cur /\ (h = 0 \/ h = Number cur) /\ 0 <= h <= Number cur) \/
        (0 < h < Number cur /\
         GetHeaderByNumber (chain api) (Big.Uint64 h) = Some hd)
    end.

(** The height asked for is below zero or above the current height. *)
Definition invalid_height (api : API) (blockNumber : option Z) : Prop :=
  exists h, blockNumber = Some h /\
            (h < 0 \/ exists cur, CurrentHeader (chain api) = Some cur /\
                                  Number cur < h).


(** Every evaluation call of the log goes to [to] at height [height]. *)
Definition calls_only (to : Address) (height : Z) (t : list Event) : Prop :=
  Forall (fun e => match e with
                   | EvCall msg => To msg = to /\ Height msg = height
                   | _ => True
                   end) t.

(** ** Operations over collaborators that may answer differently each time

    The same statements of api.go, run against a chain reader and an
    evaluation entry point given as relations: every call of
    [CurrentHeader()], [GetHeaderByNumber(n)] or [Call(msg)] receives any
    one of the answers the relation allows, independently of the other
    calls. A computation is the set of its possible results (log and
    outcome). The codec is the pure [SystemContractCaller] of before. *)
Module Rel.

Definition R (A : Type) : Type := M A -> Prop.

(** A step with one result. *)
Definition det {A} (m : M A) : R A := fun out => out = m.

Definition bindR {A B} (m : R A) (k : A -> R B) : R B :=
  fun out =>
    exists t r, m (t, r) /\
      match r with
      | Ok a => exists t' r', k a (t', r') /\ out = (t ++ t', r')
      | Err e => out = (t, Err e)
      | Panic => out = (t, Panic)
      end.

Notation "x <~ m ;; k" := (bindR m (fun x => k))
  (at level 61, m at next level, right associativity).
Notation "' pat <~ m ;; k" := (bindR m (fun x => match x with pat => k end))
  (at level 61, pat pattern, m at next level, right associativity).

Definition orElseR {A} (m : R A) (e' : error) : R A :=
  fun out => exists o, m o /\ out = orElse o e'.

Definition mapR {A B} (f : A -> B) (m : R A) : R B :=
  fun out => exists o, m o /\ out = mapM f o.

Record ChainReaderR : Type := mkChainReaderR {
  CurrentHeaderR : option Header -> Prop;
  GetHeaderByNumberR : Z -> option Header -> Prop
}.

Record DposR : Type := mkDposR {
  CallR : CallMsg -> error + bytes -> Prop;
  systemContractR : SystemContractCaller
}.

Record APIR : Type := NewAPIR {
  chainR : ChainReaderR;
  dposR : DposR
}.

Definition chain_CurrentHeaderR (api : APIR) : R (option Header) :=
  fun out => exists h, CurrentHeaderR (chainR api) h /\
                       out = ([EvCurrentHeader], Ok h).

Definition chain_GetHeaderByNumberR (api : APIR) (number : Z)
  : R (option Header) :=
  fun out => exists h, GetHeaderByNumberR (chainR api) number h /\
                       out = ([EvGetHeaderByNumber number], Ok h).

Definition dpos_CallR (api : APIR) (msg : CallMsg) : R bytes :=
  fun out => exists a, CallR (dposR api) msg a /\
                       out = ([EvCall msg],
                              match a with
                              | inl e => Err e
                              | inr data => Ok data
                              end).

(** The opening statements of the five operations, as [resolveHeader]. *)
Definition resolveHeaderR (api : APIR) (blockNumber : option Z) : R Header :=
  header <~ chain_CurrentHeaderR api ;;
  header <~
    match blockNumber with
    | None => det (ret header)
    | Some bn =>
        if bn >? 0 then
          cur <~ det (deref header) ;;
          if bn <? Number cur then
            chain_GetHeaderByNumberR api (Big.Uint64 bn)
          else if bn >? Number cur then det (fail errInvalidInput)
          else det (ret header)
        else if bn <? 0 then det (fail errInvalidInput)
        else
          cur <~ det (deref header) ;;
          if bn >? Number cur then det (fail errInvalidInput)
          else det (ret header)
    end ;;
  det (match header with
       | None => fail errUnknownBlock
       | Some h => ret h
       end).

(** Modelled from the spec: the contract of [sortNumSlice.GetTop], which is
    declared outside api.go. Section 4.4 asks for the pairs sorted by
    weight descending, ties broken by ascending original index, and for
    the first [targetCount] entries of the sorted sequence: [top] is a
    prefix, of that length, of a rearrangement of [s] in which every
    entry is ranked before all that follow it. *)
Definition is_top (s : sortNumSlice) (n : Z) (top : sortNumSlice) : Prop :=
  exists rest,
    Permutation (top ++ rest) s /\
    StronglySorted before (top ++ rest) /\
    List.length top = Nat.min (Z.to_nat n) (List.length s).

Definition GetTopR (s : sortNumSlice) (n : Z) : R sortNumSlice :=
  fun out => exists top, is_top s n top /\ out = ret top.

(** Lines 158-200 of [GetAllProducers], as [rankProducers], over whatever
    [GetTop] may return. *)
Definition rankProducersOverR (getTop : sortNumSlice -> Z -> R sortNumSlice)
    (producersAddr : list Address) (weight : list Z)
    (amount : Z) (sizeNumber : option Z) : R ProducersInfo :=
  let sortTable := appendWeights weight 0 [] in
  let len := Z.of_nat (List.length weight) in
  sizeNumber <~ det (deref sizeNumber) ;;
  let size := Big.Int64 sizeNumber in
  getNumber <~ det (selectNumber len size amount) ;;
  sortedProducers <~ getTop sortTable getNumber ;;
  topProducers <~ det (collectTop producersAddr sortedProducers 0
                                  (Z.to_nat getNumber) []) ;;
  det (ret (mkProducersInfo topProducers amount)).

(** The ranking step over the [GetTop] of section 4.4. *)
Definition rankProducersR (producersAddr : list Address) (weight : list Z)
    (amount : Z) (sizeNumber : option Z) : R ProducersInfo :=
  rankProducersOverR GetTopR producersAddr weight amount sizeNumber.

Section FacadeR.

Variable core : CorePkg.

Definition GetSystemContractR (api : APIR) (contractName : string)
  : R Address :=
  if String.eqb contractName "" then det (fail (errors_New "null string"))
  else
    header <~ chain_CurrentHeaderR api ;;
    inputData <~ det (orReturn (Pack (MainABI (systemContractR (dposR api)))
                                     "getSystemContract"
                                     [ArgString contractName])) ;;
    header <~ det (deref header) ;;
    let call := NewCallMsg (MainSystemContractAddr core) inputData
                           (Big.Uint64 (Number header)) in
    data <~ dpos_CallR api call ;;
    let caller := NewSystemContractCaller core in
    res <~ det (orReturn (UnpackAddress (MainABI caller)
                                        "getSystemContract" data)) ;;
    det (ret res).

Definition GetActiveProducersR (api : APIR) (blockNumber : option Z)
  : R (list Address) :=
  header <~ resolveHeaderR api blockNumber ;;
  det (ret (ActiveProducers header)).

Definition GetPendingProducerR (api : APIR) (blockNumber : option Z)
  : R (list Address) :=
  header <~ resolveHeaderR api blockNumber ;;
  det (ret (PendingProducers header)).

Definition fetchProducersR (api : APIR) (header : Header)
  : R (list Address * list Z * Z) :=
  let methodString := "getAllProducersInfo"%string in
  sysAddress <~ orElseR (GetSystemContractR api regContract)
                        (errors_New "can't get reg contract address") ;;
  let caller := NewSystemContractCaller core in
  inputData <~ det (orReturn (Pack (RegABI caller) methodString [])) ;;
  let call := NewCallMsg sysAddress inputData (Big.Uint64 (Number header)) in
  data <~ dpos_CallR api call ;;
  det (orReturn (UnpackProducers (RegABI caller) methodString data)).

Definition GetAllProducersR (api : APIR) (blockNumber sizeNumber : option Z)
  : R ProducersInfo :=
  header <~ resolveHeaderR api blockNumber ;;
  ' (producersAddr, weight, amount) <~ fetchProducersR api header ;;
  rankProducersR producersAddr weight amount sizeNumber.

Definition GetVoteInfoR (api : APIR) (addr : option Address)
    (blockNumber : option Z) : R Vote.Voteinfo :=
  header <~ resolveHeaderR api blockNumber ;;
  voteAddress <~ orElseR (GetSystemContractR api voteContract)
                         (errors_New "can't get vote contract address") ;;
  let caller := NewSystemContractCaller core in
  inputData <~ det (orReturn (Pack (VoteABI caller) "getVoteInfo"
                                   [ArgAddressPtr addr])) ;;
  let call := NewCallMsg voteAddress inputData (Big.Uint64 (Number header)) in
  data <~ dpos_CallR api call ;;
  det (orReturn (UnpackVoteinfo (VoteABI caller) "getVoteInfo" data)).

Definition GetProposalR (api : APIR) (blockNumber : option Z)
  : R Proposal.ProposalInfo :=
  header <~ resolveHeaderR api blockNumber ;;
  let caller := NewSystemContractCaller core in
  inputData <~ det (orReturn (Pack (MainABI caller) "getProposal" [])) ;;
  let call := NewCallMsg (MainSystemContractAddr core) inputData
                         (Big.Uint64 (Number header)) in
  data <~ dpos_CallR api call ;;
  det (orReturn (UnpackProposal (MainABI caller) "getProposal" data)).

Definition facadeR (api : APIR) (op : HeightOp) (blockNumber : option Z)
  : R Answer :=
  match op with
  | OpGetActiveProducers =>
      mapR AnsAddresses (GetActiveProducersR api blockNumber)
  | OpGetPendingProducer =>
      mapR AnsAddresses (GetPendingProducerR api blockNumber)
  | OpGetAllProducers sizeNumber =>
      mapR AnsProducers (GetAllProducersR api blockNumber sizeNumber)
  | OpGetVoteInfo addr => mapR AnsVote (GetVoteInfoR api addr blockNumber)
  | OpGetProposal => mapR AnsProposal (GetProposalR api blockNumber)
  end.

End FacadeR.

(** A computation with at most one result. *)
Definition functional {A} (m : R A) : Prop :=
  forall o1 o2, m o1 -> m o2 -> o1 = o2.

(** The chain reader and the evaluation entry point are functions of
    their inputs: each question has at most one answer. *)
Definition fixed (api : APIR) : Prop :=
  (forall h1 h2, CurrentHeaderR (chainR api) h1 ->
                 CurrentHeaderR (chainR api) h2 -> h1 = h2) /\
  (forall n h1 h2, GetHeaderByNumberR (chainR api) n h1 ->
                   GetHeaderByNumberR (chainR api) n h2 -> h1 = h2) /\
  (forall msg a1 a2, CallR (dposR api) msg a1 ->
                     CallR (dposR api) msg a2 -> a1 = a2).

(** The collaborators of an [API], each answering as the function does. *)
Definition graph (api : API) : APIR :=
  NewAPIR
    (mkChainReaderR (fun h => h = CurrentHeader (chain api))
                    (fun n h => h = GetHeaderByNumber (chain api) n))
    (mkDposR (fun msg a => a = Call (dpos api) msg)
             (systemContract (dpos api))).

(** [m] has exactly the result [m0]. *)
Definition is_fn {A} (m : R A) (m0 : M A) : Prop :=
  forall out, m out <-> out = m0.

(** Each answer of the functions of [api] is one the relations of [apiR]
    allow. *)
Definition allows (apiR : APIR) (api : API) : Prop :=
  CurrentHeaderR (chainR apiR) (CurrentHeader (chain api)) /\
  (forall n, GetHeaderByNumberR (chainR apiR) n
               (GetHeaderByNumber (chain api) n)) /\
  (forall msg, CallR (dposR apiR) msg (Call (dpos api) msg)) /\
  systemContractR (dposR apiR) = systemContract (dpos api).

(** The chain of [Demo] with its head at height [n]. *)
Definition apiAt (n : Z) : API :=
  NewAPI (mkChainReader (Some (Demo.header_at n))
                        (GetHeaderByNumber Demo.chain0))
         (mkDpos (fun msg => inr (Data msg)) (Demo.caller0 [] [] 0)).

(** A chain whose head moves between height 9 and height 10 while it is
    being read. *)
Definition apiMoving : APIR :=
  NewAPIR
    (mkChainReaderR (fun h => h = Some (Demo.header_at 9) \/
                              h = Some (Demo.header_at 10))
                    (fun n h => h = GetHeaderByNumber Demo.chain0 n))
    (mkDposR (fun msg a => a = inr (Data msg)) (Demo.caller0 [] [] 0)).

(** A chain reader that sometimes has a current header, at height 10, and
    sometimes has none. *)
Definition apiVanishing : APIR :=
  NewAPIR
    (mkChainReaderR (fun h => h = Some (Demo.header_at 10) \/ h = None)
                    (fun n h => h = GetHeaderByNumber Demo.chain0 n))
    (mkDposR (fun msg a => a = inr (Data msg)) (Demo.caller0 [] [] 0)).

End Rel.

(** * Properties *)

(** ** Conversions inside their range *)

Lemma Uint64_small (x : Z) : 0 <= x < Big.two64 -> Big.Uint64 x = x.
Proof.
  intros Hx. unfold Big.Uint64, Big.low64.
  rewrite Z.abs_eq by lia. apply Z.mod_small. exact Hx.
Qed.

Lemma Int64_small (x : Z) : - Big.two63 <= x < Big.two63 -> Big.Int64 x = x.
Proof.
  unfold Big.Int64, Big.neg_int64, Big.int64_of_uint64, Big.low64,
    Big.two63, Big.two64.
  intros Hx.
  destruct (Z.ltb_spec x 0) as [Hneg | Hpos].
  - rewrite Z.abs_neq by lia.
    destruct (Z.eq_dec x (- 2 ^ 63)) as [-> | Hne]; [reflexivity |].
    rewrite (Z.mod_small (- x)) by lia.
    destruct (Z.ltb_spec (- x) (2 ^ 63)); [| lia].
    rewrite Z.opp_involutive.
    replace (x mod 2 ^ 64) with (x + 2 ^ 64)
      by (apply Z.mod_unique with (q := -1); lia).
    destruct (Z.ltb_spec (x + 2 ^ 64) (2 ^ 63)); lia.
  - rewrite Z.abs_eq by lia. rewrite Z.mod_small by lia.
    destruct (Z.ltb_spec x (2 ^ 63)); lia.
Qed.

(** ** The monad *)

Lemma bind_log {A B} (t : list Event) (a : A) (k : A -> M B) :
  bind (t, Ok a) k = log t (k a).
Proof. unfold bind, log. destruct (k a); reflexivity. Qed.

Lemma log_nil {A} (m : M A) : log [] m = m.
Proof. destruct m; reflexivity. Qed.

Lemma bind_ret {A B} (a : A) (k : A -> M B) : bind (ret a) k = k a.
Proof. unfold ret. rewrite bind_log. apply log_nil. Qed.

Lemma bind_ext {A B} (m1 m2 : M A) (k1 k2 : A -> M B) :
  m1 = m2 -> (forall a, k1 a = k2 a) -> bind m1 k1 = bind m2 k2.
Proof.
  intros <- Hk. destruct m1 as [t [a | e | ]]; simpl; try reflexivity.
  now rewrite Hk.
Qed.

Lemma mapM_bind {A B C} (f : B -> C) (m : M A) (k : A -> M B) :
  mapM f (bind m k) = bind m (fun a => mapM f (k a)).
Proof.
  destruct m as [t [a | e | ]]; try reflexivity.
  unfold bind, mapM. destruct (k a); reflexivity.
Qed.

(** ** Header resolution, case by case *)

Lemma resolveHeader_absent (api : API) :
  resolveHeader api None =
  ([EvCurrentHeader],
   match CurrentHeader (chain api) with
   | Some cur => Ok cur
   | None => Err errUnknownBlock
   end).
Proof.
  unfold resolveHeader, chain_CurrentHeader.
  destruct (CurrentHeader (chain api)); reflexivity.
Qed.

Lemma resolveHeader_negative (api : API) (h : Z) :
  h < 0 -> resolveHeader api (Some h) = ([EvCurrentHeader], Err errInvalidInput).
Proof.
  intros Hh. unfold resolveHeader, chain_CurrentHeader.
  rewrite bind_log.
  destruct (Z.gtb_spec h 0); [lia |].
  destruct (Z.ltb_spec h 0); [| lia].
  reflexivity.
Qed.

Lemma resolveHeader_above (api : API) (cur : Header) (h : Z) :
  CurrentHeader (chain api) = Some cur -> Number cur < h ->
  resolveHeader api (Some h) = ([EvCurrentHeader], Err errInvalidInput).
Proof.
  intros Hcur Hh. unfold resolveHeader, chain_CurrentHeader.
  rewrite bind_log, Hcur.
  destruct (Z.gtb_spec h 0).
  - simpl deref. rewrite bind_ret.
    destruct (Z.ltb_spec h (Number cur)); [lia |].
    destruct (Z.gtb_spec h (Number cur)); [| lia].
    reflexivity.
  - destruct (Z.ltb_spec h 0); [reflexivity |].
    simpl deref. rewrite bind_ret.
    destruct (Z.gtb_spec h (Number cur)); [| lia].
    reflexivity.
Qed.

Lemma resolveHeader_historical (api : API) (cur : Header) (h : Z) :
  CurrentHeader (chain api) = Some cur -> 0 < h < Number cur ->
  resolveHeader api (Some h) =
  ([EvCurrentHeader; EvGetHeaderByNumber (Big.Uint64 h)],
   match GetHeaderByNumber (chain api) (Big.Uint64 h) with
   | Some hd => Ok hd
   | None => Err errUnknownBlock
   end).
Proof.
  intros Hcur Hh. unfold resolveHeader, chain_CurrentHeader.
  rewrite bind_log, Hcur.
  destruct (Z.gtb_spec h 0); [| lia].
  simpl deref. rewrite bind_ret.
  destruct (Z.ltb_spec h (Number cur)); [| lia].
  unfold chain_GetHeaderByNumber.
  destruct (GetHeaderByNumber (chain api) (Big.Uint64 h)); reflexivity.
Qed.

Lemma resolveHeader_boundary (api : API) (cur : Header) (h : Z) :
  CurrentHeader (chain api) = Some cur -> 0 <= h ->
  h = 0 \/ h = Number cur -> h <= Number cur ->
  resolveHeader api (Some h) = ([EvCurrentHeader], Ok cur).
Proof.
  intros Hcur Hnn Hh Hle. unfold resolveHeader, chain_CurrentHeader.
  rewrite bind_log, Hcur.
  destruct (Z.gtb_spec h 0).
  - simpl deref. rewrite bind_ret.
    destruct (Z.ltb_spec h (Number cur)); [lia |].
    destruct (Z.gtb_spec h (Number cur)); [lia |].
    reflexivity.
  - destruct (Z.ltb_spec h 0); [lia |].
    simpl deref. rewrite bind_ret.
    destruct (Z.gtb_spec h (Number cur)); [lia |].
    reflexivity.
Qed.

(** ** Which collaborator calls an operation can make *)

Lemma quiet_bind {A B} (p : Event -> bool) (m : M A) (k : A -> M B) :
  quiet p m -> (forall a, quiet p (k a)) -> quiet p (bind m k).
Proof.
  unfold quiet, trace. intros Hm Hk.
  destruct m as [t [a | e | ]]; simpl in *; try assumption.
  specialize (Hk a). destruct (k a) as [t' r]; simpl in *.
  apply Forall_app; split; assumption.
Qed.

Lemma quiet_nil {A} (p : Event -> bool) (r : Result A) : quiet p ([], r).
Proof. constructor. Qed.

Lemma quiet_orReturn {A} (p : Event -> bool) (r : error + A) : quiet p (orReturn r).
Proof. destruct r; apply quiet_nil. Qed.

Lemma quiet_deref {A} (p : Event -> bool) (o : option A) : quiet p (deref o).
Proof. destruct o; apply quiet_nil. Qed.

Lemma quiet_orElse {A} (p : Event -> bool) (m : M A) (e : error) :
  quiet p m -> quiet p (orElse m e).
Proof. destruct m as [t [a | e' | ]]; trivial. Qed.

Lemma quiet_mapM {A B} (p : Event -> bool) (f : A -> B) (m : M A) :
  quiet p m -> quiet p (mapM f m).
Proof. trivial. Qed.

Lemma quiet_one {A} (p : Event -> bool) (e : Event) (r : Result A) :
  p e = false -> quiet p ([e], r).
Proof. intros He. repeat constructor. exact He. Qed.

Lemma quiet_log {A} (p : Event -> bool) (t : list Event) (m : M A) :
  Forall (fun e => p e = false) t -> quiet p m -> quiet p (log t m).
Proof. intros Ht Hm. unfold quiet, log, trace; simpl. now apply Forall_app. Qed.

Lemma collectTop_silent (pa : list Address) (sp : sortNumSlice)
    (todo i : nat) (acc : list ProducerInfo) :
  trace (collectTop pa sp i todo acc) = [].
Proof.
  revert i acc. induction todo as [| todo IH]; intros i acc; simpl.
  - reflexivity.
  - destruct (nth_error sp i) as [sn |]; [| reflexivity].
    simpl deref. rewrite bind_ret.
    destruct (nth_error pa (serial sn)) as [addr |]; [| reflexivity].
    simpl deref. rewrite bind_ret. apply IH.
Qed.

Lemma selectNumber_silent (len size amount : Z) :
  trace (selectNumber len size amount) = [].
Proof.
  unfold selectNumber.
  repeat match goal with |- context [if ?c then _ else _] => destruct c end;
    reflexivity.
Qed.

Lemma rankProducers_silent (pa : list Address) (w : list Z) (amount : Z)
    (sizeNumber : option Z) :
  trace (rankProducers pa w amount sizeNumber) = [].
Proof.
  unfold rankProducers.
  destruct sizeNumber as [sz |]; [| reflexivity].
  simpl deref. rewrite bind_ret.
  pose proof (selectNumber_silent (Z.of_nat (List.length w)) (Big.Int64 sz) amount) as Hs.
  destruct (selectNumber _ _ _) as [t [n | e | ]]; simpl in Hs; subst t;
    try reflexivity.
  rewrite bind_log, log_nil.
  pose proof (collectTop_silent pa (GetTop (appendWeights w 0 []) n)
                (Z.to_nat n) 0 []) as Hc.
  destruct (collectTop _ _ _ _ _) as [t [ps | e | ]]; simpl in Hc; subst t;
    reflexivity.
Qed.

Ltac quiet_steps :=
  repeat first
    [ assumption
    | apply quiet_nil
    | apply quiet_orReturn
    | apply quiet_deref
    | apply quiet_one; reflexivity
    | apply quiet_orElse
    | apply quiet_mapM
    | apply quiet_bind; [| intros ?] ].

Section FacadeFacts.

Variable core : CorePkg.

Lemma GetSystemContract_no_fetch (api : API) (name : string) :
  quiet is_fetch (GetSystemContract core api name).
Proof.
  unfold GetSystemContract, chain_CurrentHeader, dpos_Call, ret.
  destruct (String.eqb name ""); quiet_steps.
Qed.

Lemma facade_at_no_fetch (api : API) (op : HeightOp) (header : Header) :
  quiet is_fetch (facade_at core api op header).
Proof.
  destruct op; simpl; unfold ret; try apply quiet_nil; apply quiet_mapM.
  - unfold GetAllProducers_at, fetchProducers, dpos_Call.
    apply quiet_bind.
    + pose proof (GetSystemContract_no_fetch api regContract). quiet_steps.
    + intros [[pa w] amount]. unfold quiet.
      rewrite rankProducers_silent. constructor.
  - unfold GetVoteInfo_at, dpos_Call.
    pose proof (GetSystemContract_no_fetch api voteContract). quiet_steps.
  - unfold GetProposal_at, dpos_Call. quiet_steps.
Qed.

(** Every operation is its header resolution followed by its body. *)
Lemma facade_resolve (api : API) (op : HeightOp) (blockNumber : option Z) :
  facade core api op blockNumber =
  bind (resolveHeader api blockNumber) (facade_at core api op).
Proof.
  destruct op; simpl;
    unfold GetActiveProducers, GetPendingProducer, GetAllProducers,
      GetVoteInfo, GetProposal;
    rewrite mapM_bind; reflexivity.
Qed.

Lemma facade_resolved (api : API) (op : HeightOp) (blockNumber : option Z)
    (t : list Event) (header : Header) :
  resolveHeader api blockNumber = (t, Ok header) ->
  facade core api op blockNumber = log t (facade_at core api op header).
Proof. intros H. rewrite facade_resolve, H. apply bind_log. Qed.

Lemma facade_rejected (api : API) (op : HeightOp) (blockNumber : option Z)
    (t : list Event) (e : error) :
  resolveHeader api blockNumber = (t, Err e) ->
  facade core api op blockNumber = (t, Err e).
Proof. intros H. rewrite facade_resolve, H. reflexivity. Qed.

End FacadeFacts.

(** ** Heights out of range, missing headers *)

(** C3. A requested height below zero, or above the height of the current
    header, makes each of the five height-taking operations fail with
    [errInvalidInput]; the chain reader has been asked for its current
    header and nothing else has been called. *)
Theorem height_out_of_range_InvalidInput (core : CorePkg) (api : API)
    (op : HeightOp) (h : Z) :
  h < 0 \/ (exists cur, CurrentHeader (chain api) = Some cur /\ Number cur < h) ->
  facade core api op (Some h) = ([EvCurrentHeader], Err errInvalidInput).
Proof.
  intros [Hneg | [cur [Hcur Habove]]]; apply facade_rejected.
  - now apply resolveHeader_negative.
  - now apply resolveHeader_above with (cur := cur).
Qed.

(** C7. When the header lookup yields no header, each of the five
    height-taking operations fails with [errUnknownBlock]. *)
Theorem missing_header_UnknownBlock (core : CorePkg) (api : API)
    (op : HeightOp) (blockNumber : option Z) :
  lookup_misses api blockNumber ->
  outcome (facade core api op blockNumber) = Err errUnknownBlock.
Proof.
  destruct blockNumber as [h |]; simpl.
  - intros [cur [Hcur [Hh Hmiss]]].
    rewrite (facade_rejected core api op (Some h)
               [EvCurrentHeader; EvGetHeaderByNumber (Big.Uint64 h)]
               errUnknownBlock); [reflexivity |].
    rewrite (resolveHeader_historical api cur h Hcur Hh), Hmiss. reflexivity.
  - intros Hnone.
    rewrite (facade_rejected core api op None [EvCurrentHeader] errUnknownBlock);
      [reflexivity |].
    rewrite resolveHeader_absent, Hnone. reflexivity.
Qed.

(** ** Which header an operation works on *)

(** C4. With a current header [cur]: an absent height resolves to [cur];
    a height strictly between 0 and the current height makes one
    [GetHeaderByNumber] call, with the height as a [uint64] (the height
    itself below 2^64), and the operation goes on with the header that
    call returns; a height equal to the current height resolves to [cur]
    with no [GetHeaderByNumber] call at all. *)
Theorem header_choice (core : CorePkg) (api : API) (op : HeightOp)
    (cur : Header) :
  CurrentHeader (chain api) = Some cur ->
  facade core api op None = log [EvCurrentHeader] (facade_at core api op cur)
  /\ (forall h, 0 < h < Number cur ->
       facade core api op (Some h) =
       log [EvCurrentHeader; EvGetHeaderByNumber (Big.Uint64 h)]
           (match GetHeaderByNumber (chain api) (Big.Uint64 h) with
            | Some hd => facade_at core api op hd
            | None => fail errUnknownBlock
            end)
       /\ (h < Big.two64 -> Big.Uint64 h = h))
  /\ (0 <= Number cur ->
      facade core api op (Some (Number cur)) =
      log [EvCurrentHeader] (facade_at core api op cur)
      /\ quiet is_fetch (facade core api op (Some (Number cur)))).
Proof.
  intros Hcur. split; [| split].
  - apply facade_resolved. rewrite resolveHeader_absent, Hcur. reflexivity.
  - intros h Hh. split.
    + rewrite facade_resolve, (resolveHeader_historical api cur h Hcur Hh).
      destruct (GetHeaderByNumber (chain api) (Big.Uint64 h)) as [hd |].
      * apply bind_log.
      * reflexivity.
    + intros Hlt. apply Uint64_small. lia.
  - intros Hnn.
    assert (Heq : facade core api op (Some (Number cur)) =
                  log [EvCurrentHeader] (facade_at core api op cur)).
    { apply facade_resolved.
      apply resolveHeader_boundary; [assumption | assumption | now right | lia]. }
    split; [exact Heq |].
    rewrite Heq. apply quiet_log.
    + repeat constructor.
    + apply facade_at_no_fetch.
Qed.

(** C5. For a height [h] strictly between 0 and the current height that
    storage holds a header for, [GetActiveProducers] returns the active
    producers of that header and [GetPendingProducer] its pending
    producers; the two chain-reader lookups are the only calls made, so
    the evaluation entry point is never called. *)
Theorem historical_producers_from_header (api : API) (cur hd : Header)
    (h : Z) :
  CurrentHeader (chain api) = Some cur ->
  0 < h < Number cur ->
  h < Big.two64 ->
  GetHeaderByNumber (chain api) h = Some hd ->
  GetActiveProducers api (Some h) =
    ([EvCurrentHeader; EvGetHeaderByNumber h], Ok (ActiveProducers hd))
  /\ GetPendingProducer api (Some h) =
    ([EvCurrentHeader; EvGetHeaderByNumber h], Ok (PendingProducers hd))
  /\ quiet is_call (GetActiveProducers api (Some h))
  /\ quiet is_call (GetPendingProducer api (Some h)).
Proof.
  intros Hcur Hh Hlt Hhd.
  assert (Hres : resolveHeader api (Some h) =
                 ([EvCurrentHeader; EvGetHeaderByNumber h], Ok hd)).
  { rewrite (resolveHeader_historical api cur h Hcur Hh).
    rewrite Uint64_small by lia. rewrite Hhd. reflexivity. }
  assert (Ha : GetActiveProducers api (Some h) =
               ([EvCurrentHeader; EvGetHeaderByNumber h], Ok (ActiveProducers hd))).
  { unfold GetActiveProducers. rewrite Hres. reflexivity. }
  assert (Hp : GetPendingProducer api (Some h) =
               ([EvCurrentHeader; EvGetHeaderByNumber h], Ok (PendingProducers hd))).
  { unfold GetPendingProducer. rewrite Hres. reflexivity. }
  repeat split; try assumption.
  - rewrite Ha. repeat constructor.
  - rewrite Hp. repeat constructor.
Qed.

(** ** The sort table *)

Lemma appendWeights_app (w : list Z) (i : nat) (acc : sortNumSlice) :
  appendWeights w i acc = acc ++ appendWeights w i [].
Proof.
  revert i acc. induction w as [| x w IH]; intros i acc; simpl.
  - now rewrite app_nil_r.
  - rewrite (IH (S i) (acc ++ _)), (IH (S i) [_]).
    now rewrite <- app_assoc.
Qed.

Lemma appendWeights_cons (x : Z) (w : list Z) (i : nat) :
  appendWeights (x :: w) i [] = mkSortNum i x :: appendWeights w (S i) [].
Proof. simpl. now rewrite appendWeights_app. Qed.

Lemma appendWeights_serials (w : list Z) (i : nat) :
  map serial (appendWeights w i []) = seq i (List.length w).
Proof.
  revert i. induction w as [| x w IH]; intros i.
  - reflexivity.
  - rewrite appendWeights_cons. simpl. now rewrite IH.
Qed.

Lemma appendWeights_entries (w : list Z) (i : nat) :
  Forall (fun e => nth_error w (serial e - i) = Some (num e) /\
                   (i <= serial e)%nat)
         (appendWeights w i []).
Proof.
  revert i. induction w as [| x w IH]; intros i.
  - constructor.
  - rewrite appendWeights_cons. constructor.
    + simpl. rewrite Nat.sub_diag. split; [reflexivity | lia].
    + eapply Forall_impl; [| apply (IH (S i))].
      intros e [He Hle]. split; [| lia].
      replace (serial e - i)%nat with (S (serial e - S i)) by lia.
      exact He.
Qed.

Lemma tableOf_serials (w : list Z) :
  map serial (tableOf w) = seq 0 (List.length w).
Proof. apply appendWeights_serials. Qed.

Lemma tableOf_entries (w : list Z) : Forall (entry_of w) (tableOf w).
Proof.
  eapply Forall_impl; [| apply (appendWeights_entries w 0)].
  intros e [He _]. unfold entry_of. now rewrite Nat.sub_0_r in He.
Qed.

Lemma tableOf_length (w : list Z) : List.length (tableOf w) = List.length w.
Proof.
  rewrite <- (length_map serial), tableOf_serials. apply length_seq.
Qed.

(** ** The order and the sort *)

Lemma before_spec (a b : sortNum) :
  before a b <->
  num b < num a \/ (num a = num b /\ (serial a < serial b)%nat).
Proof.
  unfold before, outranks.
  rewrite orb_true_iff, andb_true_iff, Z.ltb_lt, Z.eqb_eq, Nat.ltb_lt.
  tauto.
Qed.

Lemma before_trans (a b c : sortNum) : before a b -> before b c -> before a c.
Proof. rewrite !before_spec. lia. Qed.

Lemma before_total (a b : sortNum) :
  serial a <> serial b -> outranks a b = false -> before b a.
Proof.
  intros Hne Hf. rewrite before_spec.
  destruct (outranks a b) eqn:E; [discriminate |].
  assert (Hn : ~ before a b) by (unfold before; congruence).
  rewrite before_spec in Hn. lia.
Qed.

Lemma place_perm (x : sortNum) (s : sortNumSlice) :
  Permutation (place x s) (x :: s).
Proof.
  induction s as [| y s IH]; simpl.
  - apply Permutation_refl.
  - destruct (outranks y x).
    + eapply perm_trans; [apply perm_skip, IH | apply perm_swap].
    + apply Permutation_refl.
Qed.

Lemma rankSort_perm (s : sortNumSlice) : Permutation (rankSort s) s.
Proof.
  induction s as [| x s IH]; simpl.
  - constructor.
  - eapply perm_trans; [apply place_perm | now apply perm_skip].
Qed.

Lemma place_sorted (x : sortNum) (s : sortNumSlice) :
  StronglySorted before s ->
  ~ In (serial x) (map serial s) ->
  StronglySorted before (place x s).
Proof.
  induction 1 as [| y s Hs IH Hy]; intros Hfresh; simpl.
  - repeat constructor.
  - simpl in Hfresh.
    destruct (outranks y x) eqn:E.
    + constructor.
      * apply IH. tauto.
      * apply (Permutation_Forall (Permutation_sym (place_perm x s))).
        constructor; assumption.
    + assert (Hxy : before x y) by (apply before_total; [tauto | assumption]).
      constructor.
      * constructor; assumption.
      * constructor; [assumption |].
        eapply Forall_impl; [| exact Hy].
        intros z Hz. now apply before_trans with (b := y).
Qed.

Lemma rankSort_sorted (s : sortNumSlice) :
  NoDup (map serial s) -> StronglySorted before (rankSort s).
Proof.
  induction s as [| x s IH]; simpl; intros Hnd.
  - constructor.
  - inversion Hnd as [| ? ? Hx Hs]; subst.
    apply place_sorted; [now apply IH |].
    intros Hin. apply Hx.
    eapply Permutation_in; [| exact Hin].
    apply Permutation_map, rankSort_perm.
Qed.

Lemma sorted_table (w : list Z) : StronglySorted before (rankSort (tableOf w)).
Proof. apply rankSort_sorted. rewrite tableOf_serials. apply seq_NoDup. Qed.

Lemma sorted_table_entries (w : list Z) :
  Forall (entry_of w) (rankSort (tableOf w)).
Proof.
  apply (Permutation_Forall (Permutation_sym (rankSort_perm _))).
  apply tableOf_entries.
Qed.

Lemma GetTop_length (s : sortNumSlice) (n : Z) :
  List.length (GetTop s n) = Nat.min (Z.to_nat n) (List.length s).
Proof.
  unfold GetTop. rewrite length_firstn.
  now rewrite (Permutation_length (rankSort_perm s)).
Qed.

(** ** Sorted lists, prefixes and remainders *)

Lemma StronglySorted_app_inv {A} (R : A -> A -> Prop) (l1 l2 : list A) :
  StronglySorted R (l1 ++ l2) ->
  StronglySorted R l1 /\ (forall a b, In a l1 -> In b l2 -> R a b).
Proof.
  induction l1 as [| x l1 IH]; simpl; intros Hs.
  - split; [constructor | intros a b []].
  - inversion Hs as [| ? ? Hs' Hx]; subst.
    destruct (IH Hs') as [IH1 IH2]. split.
    + constructor; [assumption |].
      apply Forall_app in Hx. tauto.
    + intros a b [<- | Ha] Hb.
      * rewrite Forall_forall in Hx. apply Hx, in_or_app. now right.
      * now apply IH2.
Qed.

Lemma StronglySorted_map {A B} (R : A -> A -> Prop) (Q : B -> B -> Prop)
    (f : A -> B) (P : A -> Prop) (l : list A) :
  (forall a b, P a -> P b -> R a b -> Q (f a) (f b)) ->
  Forall P l -> StronglySorted R l -> StronglySorted Q (map f l).
Proof.
  intros HRQ HP Hs. induction Hs as [| x l Hs IH Hx]; simpl.
  - constructor.
  - inversion HP as [| ? ? Px Pl]; subst.
    constructor; [now apply IH |].
    rewrite Forall_forall in *. intros y Hy.
    apply in_map_iff in Hy as [a [<- Ha]].
    apply HRQ; auto.
Qed.

Lemma skipn_nth_error {A} (l : list A) (i : nat) (x : A) :
  nth_error l i = Some x -> skipn i l = x :: skipn (S i) l.
Proof.
  revert i. induction l as [| y l IH]; intros [| i]; simpl; try discriminate.
  - now intros [= ->].
  - intros H. now rewrite (IH i H).
Qed.

(** ** The collecting loop *)

Lemma collectTop_inv (pa : list Address) (sp : sortNumSlice) (todo i : nat)
    (acc ps : list ProducerInfo) :
  outcome (collectTop pa sp i todo acc) = Ok ps ->
  exists infos,
    ps = acc ++ infos /\
    Forall2 (picks pa) (firstn todo (skipn i sp)) infos /\
    List.length infos = todo.
Proof.
  revert i acc. induction todo as [| todo IH]; intros i acc; simpl.
  - intros [= <-]. exists []. rewrite app_nil_r. repeat split. constructor.
  - destruct (nth_error sp i) as [sn |] eqn:Hsn; [| discriminate].
    simpl deref. rewrite bind_ret.
    destruct (nth_error pa (serial sn)) as [addr |] eqn:Haddr; [| discriminate].
    simpl deref. rewrite bind_ret. intros H.
    destruct (IH _ _ H) as [infos [-> [HF Hlen]]].
    exists (mkProducerInfo addr (num sn) :: infos).
    rewrite <- app_assoc. split; [reflexivity |]. split.
    + rewrite (skipn_nth_error _ _ _ Hsn). simpl.
      constructor; [| assumption]. split; [exact Haddr | reflexivity].
    + simpl. now rewrite Hlen.
Qed.

Lemma collectTop_ok (pa : list Address) (sp : sortNumSlice) (todo i : nat)
    (acc : list ProducerInfo) :
  (i + todo <= List.length sp)%nat ->
  Forall (fun sn => (serial sn < List.length pa)%nat) sp ->
  exists infos,
    collectTop pa sp i todo acc = ([], Ok (acc ++ infos)) /\
    List.length infos = todo.
Proof.
  revert i acc. induction todo as [| todo IH]; intros i acc Hlen Hpa; simpl.
  - exists []. now rewrite app_nil_r.
  - destruct (nth_error sp i) as [sn |] eqn:Hsn.
    2:{ apply nth_error_None in Hsn. lia. }
    simpl deref. rewrite bind_ret.
    assert (Hin : (serial sn < List.length pa)%nat).
    { rewrite Forall_forall in Hpa. eapply Hpa, nth_error_In, Hsn. }
    destruct (nth_error pa (serial sn)) as [addr |] eqn:Haddr.
    2:{ apply nth_error_None in Haddr. lia. }
    simpl deref. rewrite bind_ret.
    destruct (IH (S i) (acc ++ [mkProducerInfo addr (num sn)])) as [infos [E L]];
      [lia | assumption |].
    exists (mkProducerInfo addr (num sn) :: infos).
    rewrite E, <- app_assoc. simpl. now rewrite L.
Qed.

(** ** The size policy *)

Lemma selectNumber_bounds (len size amount n : Z) :
  0 <= len ->
  outcome (selectNumber len size amount) = Ok n -> 0 <= n <= len.
Proof.
  intros Hlen. unfold selectNumber.
  destruct (Z.ltb_spec size 0).
  - intros [= <-]. lia.
  - destruct (Z.eqb_spec size 0).
    + destruct (Z.gtb_spec (Big.Uint64 amount) len); [discriminate |].
      intros [= <-]. split; [| assumption].
      unfold Big.Uint64, Big.low64, Big.two64.
      apply Z.mod_pos_bound. lia.
    + destruct (Z.gtb_spec size len); intros [= <-]; lia.
Qed.

(** ** The ranking step, run *)

Lemma rankProducers_inv (pa : list Address) (w : list Z) (amount : Z)
    (sizeNumber : option Z) (info : ProducersInfo) :
  outcome (rankProducers pa w amount sizeNumber) = Ok info ->
  exists sz n,
    sizeNumber = Some sz /\
    outcome (selectNumber (Z.of_nat (List.length w)) (Big.Int64 sz) amount) = Ok n /\
    Size info = amount /\
    List.length (Producers info) = Z.to_nat n /\
    Forall2 (picks pa) (GetTop (tableOf w) n) (Producers info).
Proof.
  unfold rankProducers. destruct sizeNumber as [sz |]; [| discriminate].
  simpl deref. rewrite bind_ret.
  destruct (selectNumber _ _ _) as [t [n | e | ]] eqn:Hsel; try discriminate.
  rewrite bind_log. unfold log, outcome. simpl snd.
  destruct (collectTop _ _ _ _ _) as [t' [ps | e | ]] eqn:Hc; try discriminate.
  rewrite bind_log. simpl. intros [= <-].
  pose proof (collectTop_inv pa _ _ _ _ ps (f_equal snd Hc)) as [infos [-> [HF HL]]].
  exists sz, n. split; [reflexivity |].
  split; [unfold outcome; now rewrite Hsel |].
  split; [reflexivity |]. split; [exact HL |].
  unfold GetTop in HF. simpl skipn in HF.
  rewrite firstn_firstn, Nat.min_id in HF. exact HF.
Qed.

Lemma rankProducers_run (pa : list Address) (w : list Z) (amount sz n : Z) :
  (List.length w <= List.length pa)%nat ->
  outcome (selectNumber (Z.of_nat (List.length w)) (Big.Int64 sz) amount) = Ok n ->
  exists ps,
    rankProducers pa w amount (Some sz) = ([], Ok (mkProducersInfo ps amount)) /\
    List.length ps = Z.to_nat n.
Proof.
  intros Hpa Hsel. unfold rankProducers. simpl deref. rewrite bind_ret.
  pose proof (selectNumber_bounds _ _ _ n (Nat2Z.is_nonneg _) Hsel) as Hn.
  pose proof (selectNumber_silent (Z.of_nat (List.length w)) (Big.Int64 sz) amount) as Ht.
  destruct (selectNumber _ _ _) as [t r]; simpl in Hsel, Ht; subst t r.
  rewrite bind_log, log_nil.
  destruct (collectTop_ok pa (GetTop (tableOf w) n) (Z.to_nat n) 0 [])
    as [infos [E L]].
  - rewrite GetTop_length, tableOf_length. simpl. lia.
  - unfold GetTop.
    assert (Hall : Forall (fun sn => (serial sn < List.length pa)%nat)
                          (rankSort (tableOf w))).
    { eapply Forall_impl; [| apply sorted_table_entries].
      intros e He. unfold entry_of in He.
      assert (nth_error w (serial e) <> None) as Hx by congruence.
      apply nth_error_Some in Hx. lia. }
    rewrite Forall_forall in *. intros x Hx. apply Hall.
    rewrite <- (firstn_skipn (Z.to_nat n) (rankSort (tableOf w))).
    apply in_or_app. now left.
  - exists infos. unfold tableOf in E. rewrite E. simpl. now split.
Qed.

(** ** The ranked output *)

Lemma bind_Ok_inv {A B} (m : M A) (k : A -> M B) (b : B) :
  outcome (bind m k) = Ok b ->
  exists a, outcome m = Ok a /\ outcome (k a) = Ok b.
Proof.
  destruct m as [t [a | e | ]]; simpl; try discriminate.
  intros H. exists a. split; [reflexivity |].
  unfold outcome in *. destruct (k a). exact H.
Qed.

Lemma before_ranks (w : list Z) (a b : sortNum) :
  entry_of w a -> entry_of w b -> before a b ->
  ranks_before w (serial a) (serial b).
Proof.
  unfold entry_of. intros Ha Hb Hab. apply before_spec in Hab.
  exists (num a), (num b). auto.
Qed.

Lemma picks_carries (pa : list Address) (w : list Z) (top : sortNumSlice)
    (ps : list ProducerInfo) :
  Forall (entry_of w) top -> Forall2 (picks pa) top ps ->
  Forall2 (carries pa w) (map serial top) ps.
Proof.
  intros He HF. induction HF as [| sn p top ps [Hp Hw] HF IH]; simpl.
  - constructor.
  - inversion He as [| ? ? Hsn Htop]; subst.
    constructor; [| now apply IH].
    split; [exact Hp |]. rewrite Hw. exact Hsn.
Qed.

Lemma carried_weights_descend (pa : list Address) (w : list Z)
    (idxs : list nat) (ps : list ProducerInfo) :
  Forall2 (carries pa w) idxs ps ->
  StronglySorted (ranks_before w) idxs ->
  StronglySorted (fun p q => Weight q <= Weight p) ps.
Proof.
  intros HF. induction HF as [| i p idxs ps [_ Hi] HF IH]; intros Hs.
  - constructor.
  - inversion Hs as [| ? ? Hs' Hall]; subst.
    constructor; [now apply IH |].
    clear IH Hs Hs'. induction HF as [| j q idxs ps [_ Hj] HF IH].
    + constructor.
    + inversion Hall as [| ? ? Hij Hrest]; subst.
      constructor; [| now apply IH].
      destruct Hij as [wi [wj [Ei [Ej Hord]]]].
      rewrite Hi in Ei. rewrite Hj in Ej.
      injection Ei as <-. injection Ej as <-. lia.
Qed.

Lemma top_of_table (w : list Z) (n : Z) :
  let top := GetTop (tableOf w) n in
  Forall (entry_of w) top /\
  StronglySorted (ranks_before w) (map serial top) /\
  (forall i j, In i (map serial top) -> (j < List.length w)%nat ->
               ~ In j (map serial top) -> ranks_before w i j).
Proof.
  unfold GetTop. set (sorted := rankSort (tableOf w)).
  set (k := Z.to_nat n).
  pose proof (sorted_table w) as Hs. fold sorted in Hs.
  pose proof (sorted_table_entries w) as He. fold sorted in He.
  rewrite <- (firstn_skipn k sorted) in Hs, He.
  apply StronglySorted_app_inv in Hs as [Hs1 Hs2].
  apply Forall_app in He as [He1 He2].
  simpl. split; [exact He1 |]. split.
  - apply StronglySorted_map with (R := before) (P := entry_of w);
      [| assumption | assumption].
    intros a b Ha Hb Hab. now apply before_ranks.
  - intros i j Hi Hj Hnot.
    apply in_map_iff in Hi as [a [<- Ha]].
    assert (Hin : In j (map serial sorted)).
    { apply (Permutation_in j
               (Permutation_sym (Permutation_map serial (rankSort_perm (tableOf w))))).
      rewrite tableOf_serials. apply in_seq. lia. }
    rewrite <- (firstn_skipn k sorted), map_app in Hin.
    apply in_app_or in Hin as [Hin | Hin]; [contradiction |].
    apply in_map_iff in Hin as [b [<- Hb]].
    rewrite Forall_forall in He1, He2.
    apply before_ranks; auto.
Qed.

Lemma rankProducers_ranked (pa : list Address) (w : list Z) (amount : Z)
    (sizeNumber : option Z) (info : ProducersInfo) :
  outcome (rankProducers pa w amount sizeNumber) = Ok info ->
  exists idxs,
    Forall2 (carries pa w) idxs (Producers info) /\
    StronglySorted (ranks_before w) idxs /\
    (forall i j, In i idxs -> (j < List.length w)%nat -> ~ In j idxs ->
                 ranks_before w i j) /\
    StronglySorted (fun p q => Weight q <= Weight p) (Producers info).
Proof.
  intros H.
  destruct (rankProducers_inv _ _ _ _ _ H) as [sz [n [_ [_ [_ [_ HF]]]]]].
  destruct (top_of_table w n) as [He [Hs Htop]].
  exists (map serial (GetTop (tableOf w) n)).
  assert (Hc : Forall2 (carries pa w) (map serial (GetTop (tableOf w) n))
                       (Producers info)) by now apply picks_carries.
  repeat split; try assumption.
  now apply carried_weights_descend with (pa := pa) (w := w)
                                        (idxs := map serial (GetTop (tableOf w) n)).
Qed.

(** C2. When [GetAllProducers] returns a list, there are decoded arrays
    [producersAddr], [weight] and a list of indices [idxs] such that:
    each returned entry carries the address and the weight decoded at its
    index; the indices run in ranking order, heavier weights first and,
    among equal weights, smaller indices first; every index left out is
    ranked after every index returned; hence the returned weights never
    increase along the list. *)
Theorem GetAllProducers_ranked (core : CorePkg) (api : API)
    (blockNumber sizeNumber : option Z) (info : ProducersInfo) :
  outcome (GetAllProducers core api blockNumber sizeNumber) = Ok info ->
  exists header producersAddr weight amount idxs,
    outcome (resolveHeader api blockNumber) = Ok header /\
    outcome (fetchProducers core api header) = Ok (producersAddr, weight, amount) /\
    Size info = amount /\
    Forall2 (carries producersAddr weight) idxs (Producers info) /\
    StronglySorted (ranks_before weight) idxs /\
    (forall i j, In i idxs -> (j < List.length weight)%nat -> ~ In j idxs ->
                 ranks_before weight i j) /\
    StronglySorted (fun p q => Weight q <= Weight p) (Producers info).
Proof.
  unfold GetAllProducers, GetAllProducers_at. intros H.
  apply bind_Ok_inv in H as [header [Hres H]].
  apply bind_Ok_inv in H as [[[pa w] amount] [Hfetch H]].
  destruct (rankProducers_ranked _ _ _ _ _ H) as [idxs Hidxs].
  destruct (rankProducers_inv _ _ _ _ _ H) as [_ [_ [_ [_ [Hsize _]]]]].
  exists header, pa, w, amount, idxs. tauto.
Qed.

(** ** The size policy on the decoded arrays *)

Lemma GetAllProducers_at_decoded (core : CorePkg) (api : API)
    (sizeNumber : option Z) (header : Header) (t : list Event)
    (pa : list Address) (w : list Z) (amount : Z) :
  fetchProducers core api header = (t, Ok (pa, w, amount)) ->
  GetAllProducers_at core api sizeNumber header =
  log t (rankProducers pa w amount sizeNumber).
Proof.
  intros H. unfold GetAllProducers_at. rewrite H, bind_log. reflexivity.
Qed.

Lemma selectNumber_all (len size amount : Z) :
  size < 0 -> selectNumber len size amount = ([], Ok len).
Proof.
  intros H. unfold selectNumber. destruct (Z.ltb_spec size 0); [reflexivity | lia].
Qed.

Lemma selectNumber_amount (len amount : Z) :
  selectNumber len 0 amount =
  if Big.Uint64 amount >? len then ([], Err errTooFewProducers)
  else ([], Ok (Big.Uint64 amount)).
Proof. reflexivity. Qed.

Lemma selectNumber_given (len size amount : Z) :
  0 < size -> selectNumber len size amount = ([], Ok (Z.min size len)).
Proof.
  intros H. unfold selectNumber.
  destruct (Z.ltb_spec size 0); [lia |].
  destruct (Z.eqb_spec size 0); [lia |].
  destruct (Z.gtb_spec size len); unfold ret; do 2 f_equal; lia.
Qed.

(** Inside the 64-bit ranges the size policy is the documented one: with
    [n] decoded records, a [sizeNumber] that fits [int64] and an [amount]
    that fits [uint64], a negative size returns [n] entries, size zero
    fails with [errTooFewProducers] when [amount > n] and returns [amount]
    entries otherwise, and a positive size returns [min(sizeNumber, n)]
    entries. Which entries they are is [rankProducers_ranked]. *)
Lemma size_policy_within_64_bits (pa : list Address) (w : list Z)
    (amount sz : Z) :
  List.length pa = List.length w ->
  - Big.two63 <= sz < Big.two63 ->
  0 <= amount < Big.two64 ->
  let n := Z.of_nat (List.length w) in
  let returns (k : Z) :=
    exists ps, rankProducers pa w amount (Some sz) =
               ([], Ok (mkProducersInfo ps amount)) /\
               Z.of_nat (List.length ps) = k in
  (sz < 0 -> returns n) /\
  (sz = 0 -> n < amount ->
   rankProducers pa w amount (Some sz) = ([], Err errTooFewProducers)) /\
  (sz = 0 -> amount <= n -> returns amount) /\
  (0 < sz -> returns (Z.min sz n)).
Proof.
  intros Hlen Hsz Hamt n returns.
  assert (Hrun : forall k, 0 <= k ->
            selectNumber n (Big.Int64 sz) amount = ([], Ok k) -> returns k).
  { intros k Hk Hsel.
    destruct (rankProducers_run pa w amount sz k) as [ps [E L]].
    - lia.
    - fold n. unfold outcome. now rewrite Hsel.
    - exists ps. split; [exact E | lia]. }
  rewrite Int64_small in Hrun by assumption.
  repeat split.
  - intros Hneg. apply Hrun; [lia | now apply selectNumber_all].
  - intros -> Hlt. unfold rankProducers. simpl deref. rewrite bind_ret.
    fold n. rewrite Int64_small by assumption.
    rewrite selectNumber_amount, Uint64_small by assumption.
    destruct (Z.gtb_spec amount n); [reflexivity | lia].
  - intros -> Hle. apply Hrun; [lia |].
    rewrite selectNumber_amount, Uint64_small by assumption.
    destruct (Z.gtb_spec amount n); [lia | reflexivity].
  - intros Hpos. apply Hrun; [lia | now apply selectNumber_given].
Qed.

(** C1. A [sizeNumber] outside [int64] is not taken at its value:
    [Int64()] keeps the low 64 bits of its magnitude. With two decoded
    records, [sizeNumber = 2^64] is treated as zero: it fails with
    [errTooFewProducers] when [amount = 3] and returns one record when
    [amount = 1]; [sizeNumber = 2^64 + 1] returns one record;
    [sizeNumber = -2^64] is treated as zero as well. *)
Theorem size_beyond_int64_wraps :
  let run amount sizeNumber :=
    outcome (GetAllProducers (Demo.core0 [11%N; 12%N] [5; 7] amount)
                             (Demo.api0 [11%N; 12%N] [5; 7] amount)
                             None (Some sizeNumber)) in
  run 3 (2 ^ 64) = Err errTooFewProducers /\
  run 1 (2 ^ 64) = Ok (mkProducersInfo [mkProducerInfo 12%N 7] 1) /\
  run 1 (2 ^ 64 + 1) = Ok (mkProducersInfo [mkProducerInfo 12%N 7] 1) /\
  run 3 (- 2 ^ 64) = Err errTooFewProducers.
Proof. repeat split; vm_compute; reflexivity. Qed.

(** ** The empty contract name *)

(** C6, as the code has it. [GetSystemContract] called with the empty
    string returns the error [errors.New("null string")], which is not
    [errInvalidInput], before any collaborator is called: neither the
    chain reader nor the evaluation entry point appears in the log. *)
Theorem GetSystemContract_empty_name (core : CorePkg) (api : API) :
  GetSystemContract core api "" = ([], Err (errors_New "null string")) /\
  errors_New "null string" <> errInvalidInput.
Proof. split; [reflexivity | discriminate]. Qed.

(** C6 as stated fails: the error returned for the empty name is not
    [errInvalidInput]. *)
Lemma GetSystemContract_empty_name_not_InvalidInput :
  outcome (GetSystemContract (Demo.core0 [] [] 0) (Demo.api0 [] [] 0) "")
  <> Err errInvalidInput.
Proof. vm_compute. discriminate. Qed.

(** ** A nil sizeNumber *)

Lemma trace_bind_silent {A B} (m : M A) (k : A -> M B) :
  (forall a, trace (k a) = []) -> trace (bind m k) = trace m.
Proof.
  intros Hk. destruct m as [t [a | e | ]]; simpl; try reflexivity.
  specialize (Hk a). destruct (k a) as [t' r]. simpl in *. subst t'.
  apply app_nil_r.
Qed.

Lemma trace_bind_ext {A B C} (m : M A) (k1 : A -> M B) (k2 : A -> M C) :
  (forall a, trace (k1 a) = trace (k2 a)) ->
  trace (bind m k1) = trace (bind m k2).
Proof.
  intros Hk. destruct m as [t [a | e | ]]; simpl; try reflexivity.
  specialize (Hk a). destruct (k1 a), (k2 a). simpl in *. now subst.
Qed.

(** C10, as the code has it. With a nil [sizeNumber], [GetAllProducers]
    never returns a result; it panics at the dereference whenever the
    call gets that far, that is, whenever the header is resolved and the
    contract's answer is decoded; a call that fails before that, in the
    header resolution or in the lookup, the packing, the call or the
    decoding that follow it, returns its error. The dereference sits
    after the decoding and nowhere else: the call is the header
    resolution, then the fetch of the contract's answer, then the panic,
    and it makes the collaborator calls a call with any other
    [sizeNumber] makes. A nil [blockNumber] is accepted and stands for the
    current header. *)
Theorem nil_sizeNumber (core : CorePkg) (api : API) (blockNumber : option Z) :
  (forall info,
     outcome (GetAllProducers core api blockNumber None) <> Ok info) /\
  (forall header decoded,
     outcome (resolveHeader api blockNumber) = Ok header ->
     outcome (fetchProducers core api header) = Ok decoded ->
     outcome (GetAllProducers core api blockNumber None) = Panic) /\
  (forall e,
     outcome (resolveHeader api blockNumber) = Err e ->
     outcome (GetAllProducers core api blockNumber None) = Err e) /\
  (forall cur sizeNumber,
     CurrentHeader (chain api) = Some cur ->
     GetAllProducers core api None sizeNumber =
     log [EvCurrentHeader] (GetAllProducers_at core api sizeNumber cur)) /\
  (forall header e,
     outcome (resolveHeader api blockNumber) = Ok header ->
     outcome (fetchProducers core api header) = Err e ->
     outcome (GetAllProducers core api blockNumber None) = Err e) /\
  GetAllProducers core api blockNumber None =
    (header <- resolveHeader api blockNumber ;;
     decoded <- fetchProducers core api header ;;
     panic) /\
  (forall sizeNumber,
     trace (GetAllProducers core api blockNumber None) =
     trace (GetAllProducers core api blockNumber sizeNumber)).
Proof.
  assert (Heq : GetAllProducers core api blockNumber None =
                (header <- resolveHeader api blockNumber ;;
                 decoded <- fetchProducers core api header ;;
                 panic)).
  { unfold GetAllProducers, GetAllProducers_at.
    apply bind_ext; [reflexivity |]. intros header.
    apply bind_ext; [reflexivity |]. intros [[pa w] amount]. reflexivity. }
  split; [| split; [| split; [| split; [| split; [| split]]]]].
  - intros info H. unfold GetAllProducers, GetAllProducers_at in H.
    apply bind_Ok_inv in H as [header [_ H]].
    apply bind_Ok_inv in H as [[[pa w] amount] [_ H]].
    apply rankProducers_inv in H as [sz [n [Hnil _]]]. discriminate.
  - intros header [[pa w] amount] Hres Hfetch.
    unfold GetAllProducers, outcome in *.
    destruct (resolveHeader api blockNumber) as [t r]; simpl in Hres; subst r.
    rewrite bind_log.
    destruct (fetchProducers core api header) as [t' r] eqn:E;
      simpl in Hfetch; subst r.
    rewrite (GetAllProducers_at_decoded _ _ _ _ _ _ _ _ E). reflexivity.
  - intros e Hres. unfold GetAllProducers, outcome in *.
    destruct (resolveHeader api blockNumber) as [t r]; simpl in Hres; subst r.
    reflexivity.
  - intros cur sizeNumber Hcur. unfold GetAllProducers.
    rewrite resolveHeader_absent, Hcur. apply bind_log.
  - intros header e Hres Hfetch. rewrite Heq. unfold outcome in *.
    destruct (resolveHeader api blockNumber) as [t r]; simpl in Hres; subst r.
    rewrite bind_log.
    destruct (fetchProducers core api header) as [t' r];
      simpl in Hfetch; subst r.
    reflexivity.
  - exact Heq.
  - intros sizeNumber. unfold GetAllProducers, GetAllProducers_at.
    apply trace_bind_ext. intros header.
    rewrite !trace_bind_silent; [reflexivity | |];
      intros [[pa w] amount]; apply rankProducers_silent.
Qed.

(** C10 as stated fails: with a nil [sizeNumber] and the height -1 the
    call returns [errInvalidInput] and does not panic. *)
Lemma nil_sizeNumber_without_panic :
  outcome (GetAllProducers (Demo.core0 [11%N; 12%N] [5; 7] 2)
                           (Demo.api0 [11%N; 12%N] [5; 7] 2)
                           (Some (-1)) None) = Err errInvalidInput /\
  outcome (GetAllProducers (Demo.core0 [11%N; 12%N] [5; 7] 2)
                           (Demo.api0 [11%N; 12%N] [5; 7] 2)
                           (Some (-1)) None) <> Panic.
Proof. split; vm_compute; [reflexivity | discriminate]. Qed.

(** ** Determinism *)

Lemma before_asym (a b : sortNum) : before a b -> before b a -> False.
Proof. rewrite !before_spec. lia. Qed.

(** The ranking order leaves no choice: two sorted rearrangements of the
    same entries are the same list. *)
Lemma sorted_perm_unique (l1 l2 : sortNumSlice) :
  StronglySorted before l1 -> StronglySorted before l2 ->
  Permutation l1 l2 -> l1 = l2.
Proof.
  revert l2. induction l1 as [| x l1 IH]; intros l2 H1 H2 Hp.
  - apply Permutation_nil in Hp. now subst.
  - destruct l2 as [| y l2].
    { apply Permutation_sym, Permutation_nil in Hp. discriminate. }
    inversion H1 as [| ? ? H1' Hx]; subst.
    inversion H2 as [| ? ? H2' Hy]; subst.
    assert (Hxy : x = y).
    { assert (Hin1 : In x (y :: l2))
        by (eapply Permutation_in; [exact Hp | now left]).
      assert (Hin2 : In y (x :: l1))
        by (eapply Permutation_in; [apply Permutation_sym; exact Hp | now left]).
      destruct Hin1 as [-> | Hin1]; [reflexivity |].
      destruct Hin2 as [-> | Hin2]; [reflexivity |].
      rewrite Forall_forall in Hx, Hy.
      destruct (before_asym x y); auto. }
    subst y. f_equal. apply IH; try assumption.
    now apply Permutation_cons_inv with (a := x).
Qed.

Lemma is_top_unique (s : sortNumSlice) (n : Z) (t1 t2 : sortNumSlice) :
  Rel.is_top s n t1 -> Rel.is_top s n t2 -> t1 = t2.
Proof.
  intros [r1 [P1 [S1 L1]]] [r2 [P2 [S2 L2]]].
  assert (E : t1 ++ r1 = t2 ++ r2).
  { apply sorted_perm_unique; try assumption.
    eapply perm_trans; [exact P1 | apply Permutation_sym, P2]. }
  assert (Hl : List.length t1 = List.length t2) by congruence.
  apply (f_equal (firstn (List.length t1))) in E.
  rewrite firstn_app, Nat.sub_diag, firstn_all in E.
  rewrite Hl, firstn_app, Nat.sub_diag, firstn_all in E.
  simpl in E. now rewrite !app_nil_r in E.
Qed.

Lemma is_top_table (w : list Z) (n : Z) (top : sortNumSlice) :
  Rel.is_top (tableOf w) n top <-> top = GetTop (tableOf w) n.
Proof.
  assert (Hex : Rel.is_top (tableOf w) n (GetTop (tableOf w) n)).
  { exists (skipn (Z.to_nat n) (rankSort (tableOf w))). unfold GetTop.
    rewrite firstn_skipn. split; [apply rankSort_perm |].
    split; [apply sorted_table |].
    rewrite length_firstn.
    now rewrite (Permutation_length (rankSort_perm (tableOf w))). }
  split.
  - intros H. now apply (is_top_unique (tableOf w) n).
  - now intros ->.
Qed.

(** Computations with at most one result compose. *)
Lemma functional_det {A} (m : M A) : Rel.functional (Rel.det m).
Proof. intros o1 o2 H1 H2. unfold Rel.det in *. congruence. Qed.

Lemma functional_bind {A B} (m : Rel.R A) (k : A -> Rel.R B) :
  Rel.functional m -> (forall a, Rel.functional (k a)) ->
  Rel.functional (Rel.bindR m k).
Proof.
  intros Hm Hk o1 o2 [t1 [r1 [M1 K1]]] [t2 [r2 [M2 K2]]].
  pose proof (Hm _ _ M1 M2) as E. injection E as <- <-.
  destruct r1 as [a | e | ].
  - destruct K1 as [u1 [s1 [K1 ->]]]. destruct K2 as [u2 [s2 [K2 ->]]].
    pose proof (Hk a _ _ K1 K2) as E. now injection E as <- <-.
  - congruence.
  - congruence.
Qed.

Lemma functional_orElse {A} (m : Rel.R A) (e : error) :
  Rel.functional m -> Rel.functional (Rel.orElseR m e).
Proof.
  intros Hm o1 o2 [p1 [M1 ->]] [p2 [M2 ->]]. now rewrite (Hm _ _ M1 M2).
Qed.

Lemma functional_map {A B} (f : A -> B) (m : Rel.R A) :
  Rel.functional m -> Rel.functional (Rel.mapR f m).
Proof.
  intros Hm o1 o2 [p1 [M1 ->]] [p2 [M2 ->]]. now rewrite (Hm _ _ M1 M2).
Qed.

Lemma functional_GetTop (s : sortNumSlice) (n : Z) :
  Rel.functional (Rel.GetTopR s n).
Proof.
  intros o1 o2 [t1 [T1 ->]] [t2 [T2 ->]].
  now rewrite (is_top_unique s n t1 t2 T1 T2).
Qed.

Lemma functional_rankProducersOver
    (getTop : sortNumSlice -> Z -> Rel.R sortNumSlice) (pa : list Address)
    (w : list Z) (amount : Z) (sizeNumber : option Z) :
  (forall s n, Rel.functional (getTop s n)) ->
  Rel.functional (Rel.rankProducersOverR getTop pa w amount sizeNumber).
Proof.
  intros Htop. unfold Rel.rankProducersOverR.
  repeat first [ apply functional_det
               | apply Htop
               | apply functional_bind; [| intros ?] ].
Qed.

Lemma functional_rankProducers (pa : list Address) (w : list Z) (amount : Z)
    (sizeNumber : option Z) :
  Rel.functional (Rel.rankProducersR pa w amount sizeNumber).
Proof. apply functional_rankProducersOver, functional_GetTop. Qed.

Section FixedCollaborators.

Variables (core : CorePkg) (api : Rel.APIR).
Hypothesis Hfixed : Rel.fixed api.

Lemma functional_CurrentHeader : Rel.functional (Rel.chain_CurrentHeaderR api).
Proof.
  destruct Hfixed as [Hcur _].
  intros o1 o2 [h1 [H1 ->]] [h2 [H2 ->]]. now rewrite (Hcur _ _ H1 H2).
Qed.

Lemma functional_GetHeaderByNumber (n : Z) :
  Rel.functional (Rel.chain_GetHeaderByNumberR api n).
Proof.
  destruct Hfixed as [_ [Hget _]].
  intros o1 o2 [h1 [H1 ->]] [h2 [H2 ->]]. now rewrite (Hget _ _ _ H1 H2).
Qed.

Lemma functional_Call (msg : CallMsg) : Rel.functional (Rel.dpos_CallR api msg).
Proof.
  destruct Hfixed as [_ [_ Hcall]].
  intros o1 o2 [a1 [H1 ->]] [a2 [H2 ->]]. now rewrite (Hcall _ _ _ H1 H2).
Qed.

Ltac functional_steps :=
  repeat first
    [ assumption
    | apply functional_det
    | apply functional_CurrentHeader
    | apply functional_GetHeaderByNumber
    | apply functional_Call
    | apply functional_rankProducers
    | apply functional_orElse
    | apply functional_map
    | apply functional_bind; [| intros ?]
    | match goal with
      | |- Rel.functional (if ?c then _ else _) => destruct c
      | |- Rel.functional (match ?x with _ => _ end) => destruct x
      end ].

Lemma functional_resolveHeader (blockNumber : option Z) :
  Rel.functional (Rel.resolveHeaderR api blockNumber).
Proof. unfold Rel.resolveHeaderR. functional_steps. Qed.

Lemma functional_GetSystemContract (name : string) :
  Rel.functional (Rel.GetSystemContractR core api name).
Proof. unfold Rel.GetSystemContractR. functional_steps. Qed.

Lemma functional_facade (op : HeightOp) (blockNumber : option Z) :
  Rel.functional (Rel.facadeR core api op blockNumber).
Proof.
  pose proof functional_resolveHeader as Hres.
  pose proof functional_GetSystemContract as Hsys.
  destruct op; unfold Rel.facadeR, Rel.GetActiveProducersR,
    Rel.GetPendingProducerR, Rel.GetAllProducersR, Rel.fetchProducersR,
    Rel.GetVoteInfoR, Rel.GetProposalR;
    apply functional_map;
    (apply functional_bind; [apply Hres | intros ?]);
    functional_steps.
Qed.

End FixedCollaborators.

(** Every run of the operations embedded as functions, on functions whose
    answers the relations allow, is a run of the operations of [Rel]. *)
Lemma member_det {A} (m : M A) : Rel.det m m.
Proof. reflexivity. Qed.

Lemma member_bind {A B} (m : Rel.R A) (k : A -> Rel.R B) (m0 : M A)
    (k0 : A -> M B) :
  m m0 -> (forall a, k a (k0 a)) -> Rel.bindR m k (bind m0 k0).
Proof.
  intros Hm Hk. destruct m0 as [t r]. exists t, r. split; [exact Hm |].
  destruct r as [a | e | ]; try reflexivity.
  specialize (Hk a). simpl. destruct (k0 a) as [t' r'].
  exists t', r'. split; [exact Hk | reflexivity].
Qed.

Lemma member_orElse {A} (m : Rel.R A) (m0 : M A) (e : error) :
  m m0 -> Rel.orElseR m e (orElse m0 e).
Proof. intros Hm. exists m0. now split. Qed.

Lemma member_map {A B} (f : A -> B) (m : Rel.R A) (m0 : M A) :
  m m0 -> Rel.mapR f m (mapM f m0).
Proof. intros Hm. exists m0. now split. Qed.

Lemma member_rankProducers (pa : list Address) (w : list Z) (amount : Z)
    (sizeNumber : option Z) :
  Rel.rankProducersR pa w amount sizeNumber
    (rankProducers pa w amount sizeNumber).
Proof.
  unfold Rel.rankProducersR, Rel.rankProducersOverR, rankProducers.
  apply member_bind; [apply member_det |]. intros sz.
  apply member_bind; [apply member_det |]. intros n.
  rewrite <- (bind_ret (GetTop (appendWeights w 0 []) n)
                (fun sortedProducers =>
                   topProducers <- collectTop pa sortedProducers 0 (Z.to_nat n) [] ;;
                   ret (mkProducersInfo topProducers amount))).
  apply member_bind.
  - exists (GetTop (appendWeights w 0 []) n). split; [| reflexivity].
    apply (is_top_table w n). reflexivity.
  - intros top. apply member_bind; [apply member_det |]. intros ps.
    apply member_det.
Qed.

Section Allowed.

Variables (core : CorePkg) (apiR : Rel.APIR) (api : API).
Hypothesis Hallows : Rel.allows apiR api.

Lemma member_CurrentHeader :
  Rel.chain_CurrentHeaderR apiR (chain_CurrentHeader api).
Proof. exists (CurrentHeader (chain api)). split; [apply Hallows | reflexivity]. Qed.

Lemma member_GetHeaderByNumber (n : Z) :
  Rel.chain_GetHeaderByNumberR apiR n (chain_GetHeaderByNumber api n).
Proof.
  exists (GetHeaderByNumber (chain api) n). split; [apply Hallows | reflexivity].
Qed.

Lemma member_Call (msg : CallMsg) : Rel.dpos_CallR apiR msg (dpos_Call api msg).
Proof. exists (Call (dpos api) msg). split; [apply Hallows | reflexivity]. Qed.

Ltac member_steps_with known :=
  repeat first
    [ known
    | assumption
    | apply member_det
    | apply member_CurrentHeader
    | apply member_GetHeaderByNumber
    | apply member_Call
    | apply member_rankProducers
    | apply member_orElse
    | apply member_map
    | apply member_bind; [| intros ?]
    | match goal with
      | |- (if ?c then _ else _) _ => destruct c
      | |- (match ?x with _ => _ end) _ => destruct x
      end ].

Ltac member_steps := member_steps_with fail.

Lemma member_resolveHeader (blockNumber : option Z) :
  Rel.resolveHeaderR apiR blockNumber (resolveHeader api blockNumber).
Proof. unfold Rel.resolveHeaderR, resolveHeader. member_steps. Qed.

Lemma member_GetSystemContract (name : string) :
  Rel.GetSystemContractR core apiR name (GetSystemContract core api name).
Proof.
  unfold Rel.GetSystemContractR, GetSystemContract.
  replace (Rel.systemContractR (Rel.dposR apiR))
    with (systemContract (dpos api)) by (symmetry; apply Hallows).
  member_steps.
Qed.

Lemma member_facade (op : HeightOp) (blockNumber : option Z) :
  Rel.facadeR core apiR op blockNumber (facade core api op blockNumber).
Proof.
  pose proof member_resolveHeader as Hres.
  pose proof member_GetSystemContract as Hsys.
  destruct op; unfold Rel.facadeR, facade, Rel.GetActiveProducersR,
    GetActiveProducers, Rel.GetPendingProducerR, GetPendingProducer,
    Rel.GetAllProducersR, GetAllProducers, GetAllProducers_at,
    Rel.fetchProducersR, fetchProducers, Rel.GetVoteInfoR, GetVoteInfo,
    GetVoteInfo_at, Rel.GetProposalR, GetProposal, GetProposal_at;
    apply member_map;
    (apply member_bind; [apply Hres | intros ?]);
    member_steps_with ltac:(apply Hsys).
Qed.

End Allowed.

Lemma graph_allows (api : API) : Rel.allows (Rel.graph api) api.
Proof. repeat split. Qed.

Lemma graph_fixed (api : API) : Rel.fixed (Rel.graph api).
Proof. repeat split; simpl; intros; congruence. Qed.

(** On collaborators that are functions, the operations of [Rel] have
    exactly the result of the operations embedded as functions. *)
Lemma facadeR_graph (core : CorePkg) (api : API) (op : HeightOp)
    (blockNumber : option Z) :
  Rel.is_fn (Rel.facadeR core (Rel.graph api) op blockNumber)
            (facade core api op blockNumber).
Proof.
  intros out. split.
  - intros H.
    apply (functional_facade core (Rel.graph api) (graph_fixed api) op
             blockNumber); [exact H |].
    apply member_facade, graph_allows.
  - intros ->. apply member_facade, graph_allows.
Qed.

(** Without the hypothesis the operations are not deterministic: while
    the head of the chain moves, [GetActiveProducers] with no height can
    answer with the producers of either head. *)
Lemma moving_head_two_results :
  Rel.facadeR Demo.coreABC Rel.apiMoving OpGetActiveProducers None
    ([EvCurrentHeader], Ok (AnsAddresses [9%N; 10%N])) /\
  Rel.facadeR Demo.coreABC Rel.apiMoving OpGetActiveProducers None
    ([EvCurrentHeader], Ok (AnsAddresses [10%N; 11%N])) /\
  ~ Rel.functional
      (Rel.facadeR Demo.coreABC Rel.apiMoving OpGetActiveProducers None).
Proof.
  assert (H9 : Rel.facadeR Demo.coreABC Rel.apiMoving OpGetActiveProducers None
                 ([EvCurrentHeader], Ok (AnsAddresses [9%N; 10%N]))).
  { apply (member_facade Demo.coreABC Rel.apiMoving (Rel.apiAt 9));
      repeat split; simpl; auto. }
  assert (H10 : Rel.facadeR Demo.coreABC Rel.apiMoving OpGetActiveProducers None
                  ([EvCurrentHeader], Ok (AnsAddresses [10%N; 11%N]))).
  { apply (member_facade Demo.coreABC Rel.apiMoving (Rel.apiAt 10));
      repeat split; simpl; auto. }
  split; [exact H9 |]. split; [exact H10 |].
  intros Hf. specialize (Hf _ _ H9 H10). discriminate.
Qed.


(** ** The height of the system-contract lookup *)

Lemma trace_log {A} (t : list Event) (m : M A) : trace (log t m) = t ++ trace m.
Proof. reflexivity. Qed.

Lemma GetSystemContract_run (core : CorePkg) (api : API) (name : string)
    (cur : Header) (inputData : bytes) :
  String.eqb name "" = false ->
  CurrentHeader (chain api) = Some cur ->
  Pack (MainABI (systemContract (dpos api))) "getSystemContract"
       [ArgString name] = inr inputData ->
  GetSystemContract core api name =
  log [EvCurrentHeader; EvCall (registryCall core cur inputData)]
      (match Call (dpos api) (registryCall core cur inputData) with
       | inl e => fail e
       | inr data =>
           orReturn (UnpackAddress (MainABI (NewSystemContractCaller core))
                              "getSystemContract" data)
       end).
Proof.
  intros Hname Hcur Hpack.
  unfold GetSystemContract, chain_CurrentHeader, dpos_Call.
  rewrite Hname, Hcur, Hpack, bind_log. simpl orReturn. rewrite bind_ret.
  simpl deref. rewrite bind_ret. fold (registryCall core cur inputData).
  destruct (Call (dpos api) (registryCall core cur inputData)) as [e | data].
  - reflexivity.
  - rewrite bind_log.
    destruct (UnpackAddress _ _ data); reflexivity.
Qed.

(** The calls made once the header is resolved: first the registry call
    at the current height, then, if it succeeds, the query at the height
    of the resolved header. *)
Lemma lookup_then_query {A B} (core : CorePkg) (api : API) (name : string)
    (e' : error) (cur header : Header) (inReg : bytes)
    (pack : error + bytes) (unpack : bytes -> error + A)
    (k : A -> M B) :
  String.eqb name "" = false ->
  CurrentHeader (chain api) = Some cur ->
  Pack (MainABI (systemContract (dpos api))) "getSystemContract"
       [ArgString name] = inr inReg ->
  exists rest,
    trace (x <- (sysAddress <- orElse (GetSystemContract core api name) e' ;;
                 inputData <- orReturn pack ;;
                 data <- dpos_Call api (NewCallMsg sysAddress inputData
                                          (Big.Uint64 (Number header))) ;;
                 orReturn (unpack data)) ;;
           k x) =
    [EvCurrentHeader; EvCall (registryCall core cur inReg)] ++ rest /\
    (forall data sysAddress inputData,
       (forall x, trace (k x) = []) ->
       Call (dpos api) (registryCall core cur inReg) = inr data ->
       UnpackAddress (MainABI (NewSystemContractCaller core))
                     "getSystemContract" data = inr sysAddress ->
       pack = inr inputData ->
       rest = [EvCall (NewCallMsg sysAddress inputData
                                  (Big.Uint64 (Number header)))]).
Proof.
  intros Hname Hcur Hpack.
  rewrite (GetSystemContract_run core api name cur inReg Hname Hcur Hpack).
  destruct (Call (dpos api) (registryCall core cur inReg)) as [e | data].
  { exists []. split; [reflexivity | discriminate]. }
  destruct (UnpackAddress _ _ data) as [e | sysAddress] eqn:Hunpack.
  { exists []. split; [reflexivity |].
    intros data' ? ? _ [= <-] H. congruence. }
  destruct pack as [e | inputData].
  { exists []. split; [reflexivity | discriminate]. }
  set (msg := NewCallMsg sysAddress inputData (Big.Uint64 (Number header))).
  exists ([EvCall msg] ++
          match Call (dpos api) msg with
          | inl _ => []
          | inr d => match unpack d with
                     | inl _ => []
                     | inr x => trace (k x)
                     end
          end).
  split.
  - simpl orReturn. unfold log, orElse, ret. simpl. unfold dpos_Call. fold msg.
    destruct (Call (dpos api) msg) as [e | d]; [reflexivity |].
    simpl. destruct (unpack d) as [e | x]; [reflexivity |].
    simpl. destruct (k x). reflexivity.
  - intros data' sysAddress' inputData' Hk [= <-] Hu [= <-].
    rewrite Hunpack in Hu. injection Hu as <-.
    fold msg. destruct (Call (dpos api) msg) as [e | d]; [reflexivity |].
    destruct (unpack d) as [e | x]; [reflexivity |].
    now rewrite Hk.
Qed.

Lemma bind_ret_r {A} (m : M A) : bind m ret = m.
Proof.
  destruct m as [t [a | e | ]]; simpl; try reflexivity.
  now rewrite app_nil_r.
Qed.

(** C9. For a historical height [h], strictly between 0 and the current
    height, whose header [hd] is in storage, [GetAllProducers] and
    [GetVoteInfo] resolve the system contract with a registry call at the
    height of the current header, and then query the address so obtained
    at the height of [hd]. The registry call carries the current height
    itself whenever that height is below 2^64. *)
Theorem system_contract_looked_up_at_current_height (core : CorePkg)
    (api : API) (cur hd : Header) (h : Z) :
  CurrentHeader (chain api) = Some cur ->
  0 < h < Number cur ->
  GetHeaderByNumber (chain api) (Big.Uint64 h) = Some hd ->
  (forall sizeNumber,
     lookup_at_current core api cur hd h regContract
       (Pack (RegABI (NewSystemContractCaller core)) "getAllProducersInfo" [])
       (trace (GetAllProducers core api (Some h) sizeNumber))) /\
  (forall addr,
     lookup_at_current core api cur hd h voteContract
       (Pack (VoteABI (NewSystemContractCaller core)) "getVoteInfo"
             [ArgAddressPtr addr])
       (trace (GetVoteInfo core api addr (Some h)))) /\
  (Number cur < Big.two64 ->
   forall inputData,
     Height (registryCall core cur inputData) = Number cur /\
     Height (registryCall core cur inputData) <> h).
Proof.
  intros Hcur Hh Hhd.
  assert (Hres : resolveHeader api (Some h) =
                 ([EvCurrentHeader; EvGetHeaderByNumber (Big.Uint64 h)], Ok hd)).
  { rewrite (resolveHeader_historical api cur h Hcur Hh), Hhd. reflexivity. }
  split; [| split].
  - intros sizeNumber inReg Hpack.
    unfold GetAllProducers. rewrite Hres, bind_log, trace_log.
    unfold GetAllProducers_at, fetchProducers.
    destruct (lookup_then_query core api regContract
                (errors_New "can't get reg contract address") cur hd inReg
                (Pack (RegABI (NewSystemContractCaller core))
                      "getAllProducersInfo" [])
                (UnpackProducers (RegABI (NewSystemContractCaller core))
                                 "getAllProducersInfo")
                (fun x => match x with
                          | (producersAddr, weight, amount) =>
                              rankProducers producersAddr weight amount sizeNumber
                          end)
                eq_refl Hcur Hpack) as [rest [Ht Hrest]].
    exists rest. split.
    + rewrite Ht. reflexivity.
    + intros data sysAddress inputData Hcall Hunpack Hp.
      apply (Hrest data sysAddress inputData); try assumption.
      intros [[pa w] amount]. apply rankProducers_silent.
  - intros addr inReg Hpack.
    unfold GetVoteInfo. rewrite Hres, bind_log, trace_log.
    rewrite <- (bind_ret_r (GetVoteInfo_at core api addr hd)).
    unfold GetVoteInfo_at.
    destruct (lookup_then_query core api voteContract
                (errors_New "can't get vote contract address") cur hd inReg
                (Pack (VoteABI (NewSystemContractCaller core))
                      "getVoteInfo" [ArgAddressPtr addr])
                (UnpackVoteinfo (VoteABI (NewSystemContractCaller core))
                                "getVoteInfo")
                ret eq_refl Hcur Hpack) as [rest [Ht Hrest]].
    exists rest. split.
    + cbn [app]. do 2 f_equal. exact Ht.
    + intros data sysAddress inputData Hcall Hunpack Hp.
      apply (Hrest data sysAddress inputData); try assumption.
      reflexivity.
  - intros Hlt inputData. simpl.
    rewrite Uint64_small by lia. split; [reflexivity | lia].
Qed.

(** * The theorems at work on the small chain *)

Lemma height_out_of_range_InvalidInput_witness :
  (exists cur, CurrentHeader (chain Demo.apiABC) = Some cur /\ Number cur < 11) /\
  facade Demo.coreABC Demo.apiABC OpGetProposal (Some 11) =
  ([EvCurrentHeader], Err errInvalidInput).
Proof.
  assert (H : exists cur, CurrentHeader (chain Demo.apiABC) = Some cur /\
                          Number cur < 11).
  { exists (Demo.header_at 10). split; reflexivity. }
  split; [exact H |].
  apply height_out_of_range_InvalidInput. right. exact H.
Defined.

Lemma missing_header_UnknownBlock_witness :
  lookup_misses Demo.apiABC (Some 7) /\
  outcome (facade Demo.coreABC Demo.apiABC (OpGetVoteInfo (Some 11%N)) (Some 7))
  = Err errUnknownBlock /\
  lookup_misses Demo.apiEmpty None /\
  outcome (facade Demo.coreABC Demo.apiEmpty OpGetActiveProducers None)
  = Err errUnknownBlock.
Proof.
  assert (H : lookup_misses Demo.apiABC (Some 7)).
  { exists (Demo.header_at 10). repeat split; reflexivity. }
  assert (H' : lookup_misses Demo.apiEmpty None) by reflexivity.
  split; [exact H |]. split.
  - apply missing_header_UnknownBlock. exact H.
  - split; [exact H' |]. apply missing_header_UnknownBlock. exact H'.
Defined.

Lemma header_choice_witness :
  CurrentHeader (chain Demo.apiABC) = Some (Demo.header_at 10) /\
  facade Demo.coreABC Demo.apiABC OpGetActiveProducers None =
    ([EvCurrentHeader], Ok (AnsAddresses [10%N; 11%N])) /\
  facade Demo.coreABC Demo.apiABC OpGetActiveProducers (Some 4) =
    ([EvCurrentHeader; EvGetHeaderByNumber 4], Ok (AnsAddresses [4%N; 5%N])) /\
  facade Demo.coreABC Demo.apiABC OpGetActiveProducers (Some 10) =
    ([EvCurrentHeader], Ok (AnsAddresses [10%N; 11%N])).
Proof.
  assert (Hcur : CurrentHeader (chain Demo.apiABC) = Some (Demo.header_at 10))
    by reflexivity.
  destruct (header_choice Demo.coreABC Demo.apiABC OpGetActiveProducers
              (Demo.header_at 10) Hcur) as [Habsent [Hhist Hsame]].
  split; [exact Hcur |]. split; [exact Habsent |]. split.
  - destruct (Hhist 4) as [H4 _]; [split; reflexivity |]. exact H4.
  - destruct Hsame as [H10 _]; [discriminate |]. exact H10.
Defined.

Lemma historical_producers_from_header_witness :
  GetActiveProducers Demo.apiABC (Some 4) =
    ([EvCurrentHeader; EvGetHeaderByNumber 4], Ok [4%N; 5%N]) /\
  GetPendingProducer Demo.apiABC (Some 4) =
    ([EvCurrentHeader; EvGetHeaderByNumber 4], Ok [6%N]).
Proof.
  destruct (historical_producers_from_header Demo.apiABC (Demo.header_at 10)
              (Demo.header_at 4) 4) as [Ha [Hp _]];
    try reflexivity.
  - split; reflexivity.
  - split; [exact Ha | exact Hp].
Defined.

Lemma GetAllProducers_ranked_witness :
  let info := mkProducersInfo
                [mkProducerInfo 11%N 5; mkProducerInfo 12%N 5;
                 mkProducerInfo 13%N 3] 2 in
  outcome (GetAllProducers Demo.coreABC Demo.apiABC None (Some (-1))) = Ok info /\
  exists header producersAddr weight amount idxs,
    outcome (resolveHeader Demo.apiABC None) = Ok header /\
    outcome (fetchProducers Demo.coreABC Demo.apiABC header) =
      Ok (producersAddr, weight, amount) /\
    Size info = amount /\
    Forall2 (carries producersAddr weight) idxs (Producers info) /\
    StronglySorted (ranks_before weight) idxs /\
    (forall i j, In i idxs -> (j < List.length weight)%nat -> ~ In j idxs ->
                 ranks_before weight i j) /\
    StronglySorted (fun p q => Weight q <= Weight p) (Producers info).
Proof.
  intros info.
  assert (H : outcome (GetAllProducers Demo.coreABC Demo.apiABC None (Some (-1)))
              = Ok info) by (vm_compute; reflexivity).
  split; [exact H |].
  exact (GetAllProducers_ranked Demo.coreABC Demo.apiABC None (Some (-1)) info H).
Defined.


Lemma system_contract_looked_up_at_current_height_witness :
  CurrentHeader (chain Demo.apiABC) = Some (Demo.header_at 10) /\
  0 < 4 < Number (Demo.header_at 10) /\
  GetHeaderByNumber (chain Demo.apiABC) (Big.Uint64 4) = Some (Demo.header_at 4) /\
  lookup_at_current Demo.coreABC Demo.apiABC (Demo.header_at 10)
    (Demo.header_at 4) 4 regContract
    (Pack (RegABI (NewSystemContractCaller Demo.coreABC)) "getAllProducersInfo" [])
    (trace (GetAllProducers Demo.coreABC Demo.apiABC (Some 4) (Some 0))).
Proof.
  assert (Hcur : CurrentHeader (chain Demo.apiABC) = Some (Demo.header_at 10))
    by reflexivity.
  assert (Hh : 0 < 4 < Number (Demo.header_at 10)) by (split; reflexivity).
  assert (Hhd : GetHeaderByNumber (chain Demo.apiABC) (Big.Uint64 4)
                = Some (Demo.header_at 4)) by reflexivity.
  split; [exact Hcur |]. split; [exact Hh |]. split; [exact Hhd |].
  exact (proj1 (system_contract_looked_up_at_current_height Demo.coreABC
                  Demo.apiABC (Demo.header_at 10) (Demo.header_at 4) 4
                  Hcur Hh Hhd) (Some 0)).
Defined.

Lemma nil_sizeNumber_witness :
  outcome (resolveHeader Demo.apiABC None) = Ok (Demo.header_at 10) /\
  outcome (fetchProducers Demo.coreABC Demo.apiABC (Demo.header_at 10)) =
    Ok ([11%N; 12%N; 13%N], [5; 5; 3], 2) /\
  outcome (GetAllProducers Demo.coreABC Demo.apiABC None None) = Panic /\
  outcome (resolveHeader DemoDown.api None) = Ok (Demo.header_at 10) /\
  outcome (fetchProducers DemoDown.core DemoDown.api (Demo.header_at 10)) =
    Err (errors_New "can't get reg contract address") /\
  outcome (GetAllProducers DemoDown.core DemoDown.api None None) =
    Err (errors_New "can't get reg contract address").
Proof.
  assert (Hres : outcome (resolveHeader Demo.apiABC None) = Ok (Demo.header_at 10))
    by reflexivity.
  assert (Hfetch : outcome (fetchProducers Demo.coreABC Demo.apiABC
                              (Demo.header_at 10)) =
                   Ok ([11%N; 12%N; 13%N], [5; 5; 3], 2)) by reflexivity.
  assert (Hres' : outcome (resolveHeader DemoDown.api None)
                  = Ok (Demo.header_at 10)) by reflexivity.
  assert (Hfetch' : outcome (fetchProducers DemoDown.core DemoDown.api
                               (Demo.header_at 10)) =
                    Err (errors_New "can't get reg contract address"))
    by reflexivity.
  split; [exact Hres |]. split; [exact Hfetch |]. split.
  - exact (proj1 (proj2 (nil_sizeNumber Demo.coreABC Demo.apiABC None))
             (Demo.header_at 10) _ Hres Hfetch).
  - split; [exact Hres' |]. split; [exact Hfetch' |].
    exact (proj1 (proj2 (proj2 (proj2 (proj2
                    (nil_sizeNumber DemoDown.core DemoDown.api None)))))
             (Demo.header_at 10) _ Hres' Hfetch').
Defined.

(** * The examples of section 8 *)

(** Ten records, weights 1 to 10 in decoding order. *)
Example size_selection_examples :
  let addrs := map N.of_nat (seq 101 10) in
  let weights := map Z.of_nat (seq 1 10) in
  let count amount sizeNumber :=
    match outcome (rankProducers addrs weights amount (Some sizeNumber)) with
    | Ok info => inr (List.length (Producers info))
    | Err e => inl (Some e)
    | Panic => inl None
    end in
  count 12 0 = inl (Some errTooFewProducers) /\
  count 8 0 = inr 8%nat /\
  count 8 3 = inr 3%nat /\
  count 8 50 = inr 10%nat /\
  count 8 (-1) = inr 10%nat.
Proof. repeat split; vm_compute; reflexivity. Qed.

(** Addresses [A, B, C] with weights [5, 5, 3] are ranked [A, B, C];
    with weights [3, 5, 5] they are ranked [B, C, A]. *)
Example ranking_examples :
  let ranked weights :=
    match outcome (rankProducers [11%N; 12%N; 13%N] weights 2 (Some (-1))) with
    | Ok info => map Addr (Producers info)
    | _ => []
    end in
  ranked [5; 5; 3] = [11%N; 12%N; 13%N] /\
  ranked [3; 5; 5] = [12%N; 13%N; 11%N].
Proof. split; vm_compute; reflexivity. Qed.

(** * Further properties of api.go *)

(** ** Header resolution, completed *)

Lemma resolveHeader_nil_current (api : API) (h : Z) :
  CurrentHeader (chain api) = None -> 0 <= h ->
  resolveHeader api (Some h) = ([EvCurrentHeader], Panic).
Proof.
  intros Hcur Hh. unfold resolveHeader, chain_CurrentHeader.
  rewrite bind_log, Hcur.
  destruct (Z.gtb_spec h 0); [reflexivity |].
  destruct (Z.ltb_spec h 0); [lia | reflexivity].
Qed.

Lemma facade_panicked (core : CorePkg) (api : API) (op : HeightOp)
    (blockNumber : option Z) (t : list Event) :
  resolveHeader api blockNumber = (t, Panic) ->
  facade core api op blockNumber = (t, Panic).
Proof. intros H. rewrite facade_resolve, H. reflexivity. Qed.

(** The outcome of the resolution in each of its cases. *)
Lemma resolveHeader_outcome (api : API) (blockNumber : option Z) :
  match blockNumber, CurrentHeader (chain api) with
  | None, None => outcome (resolveHeader api blockNumber) = Err errUnknownBlock
  | None, Some cur => outcome (resolveHeader api blockNumber) = Ok cur
  | Some h, None =>
      (h < 0 /\ outcome (resolveHeader api blockNumber) = Err errInvalidInput) \/
      (0 <= h /\ outcome (resolveHeader api blockNumber) = Panic)
  | Some h, Some cur =>
      ((h < 0 \/ Number cur < h) /\
       outcome (resolveHeader api blockNumber) = Err errInvalidInput) \/
      (0 < h < Number cur /\
       outcome (resolveHeader api blockNumber) =
       match GetHeaderByNumber (chain api) (Big.Uint64 h) with
       | Some hd => Ok hd
       | None => Err errUnknownBlock
       end) \/
      ((h = 0 \/ h = Number cur) /\ 0 <= h <= Number cur /\
       outcome (resolveHeader api blockNumber) = Ok cur)
  end.
Proof.
  destruct blockNumber as [h |];
    destruct (CurrentHeader (chain api)) as [cur |] eqn:Hcur.
  - destruct (Z_lt_dec h 0) as [Hneg | Hnn].
    { left. split; [now left |]. now rewrite resolveHeader_negative. }
    destruct (Z_lt_dec (Number cur) h) as [Habove | Hle].
    { left. split; [now right |].
      now rewrite (resolveHeader_above api cur h Hcur). }
    destruct (Z.eq_dec h 0) as [Hz | Hnz].
    { right. right. split; [now left |]. split; [lia |].
      rewrite (resolveHeader_boundary api cur h Hcur); [reflexivity | lia | now left | lia]. }
    destruct (Z.eq_dec h (Number cur)) as [He | Hne].
    { right. right. split; [now right |]. split; [lia |].
      rewrite (resolveHeader_boundary api cur h Hcur); [reflexivity | lia | now right | lia]. }
    right. left. split; [lia |].
    rewrite (resolveHeader_historical api cur h Hcur) by lia. reflexivity.
  - destruct (Z_lt_dec h 0) as [Hneg | Hnn].
    + left. split; [assumption |]. now rewrite resolveHeader_negative.
    + right. split; [lia |]. rewrite resolveHeader_nil_current; [reflexivity | assumption | lia].
  - rewrite resolveHeader_absent, Hcur. reflexivity.
  - rewrite resolveHeader_absent, Hcur. reflexivity.
Qed.

Lemma resolveHeader_Ok_iff (api : API) (blockNumber : option Z) (hd : Header) :
  outcome (resolveHeader api blockNumber) = Ok hd <->
  header_origin api blockNumber hd.
Proof.
  pose proof (resolveHeader_outcome api blockNumber) as H.
  unfold header_origin.
  destruct blockNumber as [h |];
    destruct (CurrentHeader (chain api)) as [cur |] eqn:Hcur.
  - destruct H as [[Hr E] | [[Hr E] | [Hb [Hr E]]]]; rewrite E; split.
    + discriminate.
    + intros [c [[= <-] [[_ [_ Hin]] | [Hin _]]]]; lia.
    + intros Hhd. exists cur. split; [reflexivity |]. right. split; [exact Hr |].
      destruct (GetHeaderByNumber (chain api) (Big.Uint64 h)); congruence.
    + intros [c [[= <-] [[_ [Hin _]] | [_ Hin]]]]; [lia |].
      now rewrite Hin.
    + intros [= <-]. exists cur. split; [reflexivity |]. left. tauto.
    + intros [c [[= <-] [[-> _] | [Hin _]]]]; [reflexivity | lia].
  - destruct H as [[_ E] | [_ E]]; rewrite E; split; try discriminate;
      intros [c [Hc _]]; discriminate.
  - rewrite H. split.
    + intros [= <-]. now exists cur.
    + intros [c [[= <-] ->]]. reflexivity.
  - rewrite H. split; [discriminate |]. intros [c [Hc _]]. discriminate.
Qed.

Lemma resolveHeader_Err_iff (api : API) (blockNumber : option Z) (e : error) :
  outcome (resolveHeader api blockNumber) = Err e <->
  (e = errInvalidInput /\ invalid_height api blockNumber) \/
  (e = errUnknownBlock /\ lookup_misses api blockNumber).
Proof.
  pose proof (resolveHeader_outcome api blockNumber) as H.
  unfold invalid_height, lookup_misses.
  destruct blockNumber as [h |];
    destruct (CurrentHeader (chain api)) as [cur |] eqn:Hcur.
  - destruct H as [[Hr E] | [[Hr E] | [Hb [Hr E]]]]; rewrite E; split.
    + intros [= <-]. left. split; [reflexivity |]. exists h. split; [reflexivity |].
      destruct Hr; [now left | right; now exists cur].
    + intros [[-> _] | [_ [c [[= <-] [Hin _]]]]]; [reflexivity | lia].
    + destruct (GetHeaderByNumber (chain api) (Big.Uint64 h)) eqn:G;
        [discriminate |].
      intros [= <-]. right. split; [reflexivity |]. now exists cur.
    + intros [[_ [h' [[= <-] [Hin | [c [[= <-] Hin]]]]]] | [-> [c [[= <-] [_ G]]]]];
        [lia | lia |].
      now rewrite G.
    + discriminate.
    + intros [[_ [h' [[= <-] [Hin | [c [[= <-] Hin]]]]]] | [_ [c [[= <-] [Hin _]]]]];
        lia.
  - destruct H as [[Hr E] | [Hr E]]; rewrite E; split.
    + intros [= <-]. left. split; [reflexivity |]. exists h. split; [reflexivity | now left].
    + intros [[-> _] | [_ [c [Hc _]]]]; [reflexivity | discriminate].
    + discriminate.
    + intros [[_ [h' [[= <-] [Hin | [c [Hc _]]]]]] | [_ [c [Hc _]]]];
        [lia | discriminate | discriminate].
  - rewrite H. split; [discriminate |].
    intros [[_ [h' [Hh _]]] | [_ Hc]]; discriminate.
  - rewrite H. split.
    + intros [= <-]. now right.
    + intros [[_ [h' [Hh _]]] | [-> _]]; [discriminate | reflexivity].
Qed.


(** X1. Height 0 is not the genesis header: with a current header of
    non-negative height, each of the five operations asked for height 0
    works on the current header and storage is not consulted. *)
Theorem height_zero_is_current (core : CorePkg) (api : API) (op : HeightOp)
    (cur : Header) :
  CurrentHeader (chain api) = Some cur -> 0 <= Number cur ->
  facade core api op (Some 0) = log [EvCurrentHeader] (facade_at core api op cur).
Proof.
  intros Hcur Hnn. apply facade_resolved.
  apply resolveHeader_boundary; [assumption | lia | now left | assumption].
Qed.

(** X2. When the chain reader has no current header and a height that is
    not negative is asked for, each of the five operations panics on
    [header.Number], having made the one chain-reader call. *)
Theorem nil_current_header_panics (core : CorePkg) (api : API)
    (op : HeightOp) (h : Z) :
  CurrentHeader (chain api) = None -> 0 <= h ->
  facade core api op (Some h) = ([EvCurrentHeader], Panic).
Proof.
  intros Hcur Hh. apply facade_panicked.
  now apply resolveHeader_nil_current.
Qed.

Lemma producers_outcome (api : API) (blockNumber : option Z)
    (field : Header -> list Address) :
  outcome (header <- resolveHeader api blockNumber ;; ret (field header)) =
  match outcome (resolveHeader api blockNumber) with
  | Ok header => Ok (field header)
  | Err e => Err e
  | Panic => Panic
  end.
Proof.
  destruct (resolveHeader api blockNumber) as [t [hd | e | ]]; reflexivity.
Qed.

(** X3. [GetActiveProducers] and [GetPendingProducer] return a list exactly
    when the header resolves, and the list is then the one recorded in the
    resolved header: the current header for an absent height, height 0 or
    the current height, the stored header for a height strictly between 0
    and the current height. *)
Theorem producers_returned_iff (api : API) (blockNumber : option Z)
    (l : list Address) :
  (outcome (GetActiveProducers api blockNumber) = Ok l <->
   exists hd, header_origin api blockNumber hd /\ l = ActiveProducers hd) /\
  (outcome (GetPendingProducer api blockNumber) = Ok l <->
   exists hd, header_origin api blockNumber hd /\ l = PendingProducers hd).
Proof.
  unfold GetActiveProducers, GetPendingProducer.
  rewrite !producers_outcome.
  split; (split;
    [ destruct (outcome (resolveHeader api blockNumber)) as [hd | e | ] eqn:E;
        try discriminate;
      intros [= <-]; exists hd; split; [now apply resolveHeader_Ok_iff | reflexivity]
    | intros [hd [Ho ->]]; apply resolveHeader_Ok_iff in Ho; now rewrite Ho ]).
Qed.

(** X4. The only errors of [GetActiveProducers] and [GetPendingProducer] are
    [errInvalidInput], returned exactly for a height below zero or above
    the current height, and [errUnknownBlock], returned exactly when the
    header lookup yields no header. *)
Theorem producers_errors_iff (api : API) (blockNumber : option Z) (e : error) :
  (outcome (GetActiveProducers api blockNumber) = Err e <->
   (e = errInvalidInput /\ invalid_height api blockNumber) \/
   (e = errUnknownBlock /\ lookup_misses api blockNumber)) /\
  (outcome (GetPendingProducer api blockNumber) = Err e <->
   (e = errInvalidInput /\ invalid_height api blockNumber) \/
   (e = errUnknownBlock /\ lookup_misses api blockNumber)).
Proof.
  unfold GetActiveProducers, GetPendingProducer.
  rewrite !producers_outcome, <- !resolveHeader_Err_iff.
  split; (destruct (outcome (resolveHeader api blockNumber)) as [hd | e' | ];
          split; congruence).
Qed.

(** ** Panics *)

Lemma outcome_of_log {A} (t : list Event) (m : M A) :
  outcome (log t m) = outcome m.
Proof. reflexivity. Qed.









(** ** How often the collaborators are used *)

Lemma uses_bind {A B} (p : Event -> bool) (m : M A) (k : A -> M B)
    (a b : nat) :
  (uses p m <= a)%nat -> (forall x, (uses p (k x) <= b)%nat) ->
  (uses p (bind m k) <= a + b)%nat.
Proof.
  unfold uses, trace. intros Hm Hk.
  destruct m as [t [x | e | ]]; simpl in *; try lia.
  specialize (Hk x). destruct (k x) as [t' r]; simpl in *.
  rewrite filter_app, length_app. lia.
Qed.

Lemma uses_silent {A} (p : Event -> bool) (m : M A) :
  trace m = [] -> uses p m = 0%nat.
Proof. unfold uses. now intros ->. Qed.

Lemma uses_orElse {A} (p : Event -> bool) (m : M A) (e : error) :
  uses p (orElse m e) = uses p m.
Proof. destruct m as [t [a | e' | ]]; reflexivity. Qed.

Lemma uses_mapM {A B} (p : Event -> bool) (f : A -> B) (m : M A) :
  uses p (mapM f m) = uses p m.
Proof. reflexivity. Qed.

Lemma uses_resolveHeader (api : API) (blockNumber : option Z) :
  uses is_call (resolveHeader api blockNumber) = 0%nat /\
  (uses is_fetch (resolveHeader api blockNumber) <= 1)%nat /\
  (uses is_current (resolveHeader api blockNumber) <= 1)%nat.
Proof.
  pose proof (resolveHeader_outcome api blockNumber) as H.
  destruct blockNumber as [h |];
    destruct (CurrentHeader (chain api)) as [cur |] eqn:Hcur.
  - destruct (Z_lt_dec h 0) as [Hneg | Hnn].
    { rewrite resolveHeader_negative by assumption. unfold uses; simpl; lia. }
    destruct (Z_lt_dec (Number cur) h) as [Habove | Hle].
    { rewrite (resolveHeader_above api cur h Hcur) by assumption.
      unfold uses; simpl; lia. }
    destruct (Z_lt_dec 0 h) as [Hpos | Hz].
    + destruct (Z.eq_dec h (Number cur)) as [He | Hne].
      * rewrite (resolveHeader_boundary api cur h Hcur);
          [unfold uses; simpl; lia | lia | now right | lia].
      * rewrite (resolveHeader_historical api cur h Hcur) by lia.
        unfold uses; simpl; lia.
    + rewrite (resolveHeader_boundary api cur h Hcur);
        [unfold uses; simpl; lia | lia | left; lia | lia].
  - destruct (Z_lt_dec h 0) as [Hneg | Hnn].
    + rewrite resolveHeader_negative by assumption. unfold uses; simpl; lia.
    + rewrite resolveHeader_nil_current; [unfold uses; simpl; lia | assumption | lia].
  - rewrite resolveHeader_absent. unfold uses; simpl; lia.
  - rewrite resolveHeader_absent. unfold uses; simpl; lia.
Qed.

Lemma uses_GetSystemContract (core : CorePkg) (api : API) (name : string) :
  (uses is_call (GetSystemContract core api name) <= 1)%nat /\
  uses is_fetch (GetSystemContract core api name) = 0%nat /\
  (uses is_current (GetSystemContract core api name) <= 1)%nat.
Proof.
  unfold GetSystemContract, chain_CurrentHeader, dpos_Call.
  destruct (String.eqb name ""); [unfold uses; simpl; lia |].
  rewrite bind_log.
  destruct (Pack _ _ _) as [e | inputData]; [unfold uses; simpl; lia |].
  simpl orReturn. rewrite bind_ret.
  destruct (CurrentHeader (chain api)) as [cur |]; [| unfold uses; simpl; lia].
  simpl deref. rewrite bind_ret.
  destruct (Call (dpos api) _) as [e | data]; [unfold uses; simpl; lia |].
  rewrite bind_log.
  destruct (UnpackAddress _ _ data); unfold uses; simpl; lia.
Qed.

Lemma quiet_uses {A} (p : Event -> bool) (m : M A) :
  quiet p m -> uses p m = 0%nat.
Proof.
  unfold quiet, uses. induction 1 as [| e t He _ IH]; simpl.
  - reflexivity.
  - now rewrite He.
Qed.

(** The query that follows the address lookup: pack, call, unpack. *)
Lemma uses_query {A} (p : Event -> bool) (api : API) (pack : error + bytes)
    (msg : bytes -> CallMsg) (unpack : bytes -> error + A) :
  (uses p (inputData <- orReturn pack ;;
           data <- dpos_Call api (msg inputData) ;;
           orReturn (unpack data)) <= 1)%nat /\
  (p = is_current ->
   uses p (inputData <- orReturn pack ;;
           data <- dpos_Call api (msg inputData) ;;
           orReturn (unpack data)) = 0%nat).
Proof.
  destruct pack as [e | inputData]; simpl orReturn.
  { split; [unfold uses; simpl; lia | reflexivity]. }
  rewrite bind_ret. unfold dpos_Call.
  destruct (Call (dpos api) (msg inputData)) as [e | data].
  - split; [| intros ->; reflexivity].
    unfold uses. simpl. destruct (p (EvCall (msg inputData))); simpl; lia.
  - rewrite bind_log.
    assert (Ht : trace (log [EvCall (msg inputData)] (orReturn (unpack data)))
                 = [EvCall (msg inputData)])
      by (destruct (unpack data); reflexivity).
    unfold uses. rewrite Ht. split.
    + simpl. destruct (p (EvCall (msg inputData))); simpl; lia.
    + intros ->. reflexivity.
Qed.

Lemma uses_facade_at (core : CorePkg) (api : API) (op : HeightOp)
    (header : Header) :
  (uses is_call (facade_at core api op header) <= calls_bound op)%nat /\
  (uses is_current (facade_at core api op header) <= 1)%nat.
Proof.
  destruct op as [| | sz | addr |]; unfold facade_at, calls_bound;
    rewrite ?uses_mapM.
  - split; unfold uses; simpl; lia.
  - split; unfold uses; simpl; lia.
  - unfold GetAllProducers_at, fetchProducers.
    destruct (uses_GetSystemContract core api regContract) as [Hc [_ Hh]].
    split.
    + apply (uses_bind is_call _ _ 2 0).
      * apply (uses_bind is_call _ _ 1 1).
        -- now rewrite uses_orElse.
        -- intros sysAddress. apply uses_query.
      * intros [[pa w] amount]. rewrite uses_silent; [lia |].
        apply rankProducers_silent.
    + apply (uses_bind is_current _ _ 1 0).
      * apply (uses_bind is_current _ _ 1 0).
        -- now rewrite uses_orElse.
        -- intros sysAddress.
           rewrite (proj2 (uses_query is_current api _ _ _) eq_refl). lia.
      * intros [[pa w] amount]. rewrite uses_silent; [lia |].
        apply rankProducers_silent.
  - unfold GetVoteInfo_at.
    destruct (uses_GetSystemContract core api voteContract) as [Hc [_ Hh]].
    split.
    + apply (uses_bind is_call _ _ 1 1).
      * now rewrite uses_orElse.
      * intros voteAddress. apply uses_query.
    + apply (uses_bind is_current _ _ 1 0).
      * now rewrite uses_orElse.
      * intros voteAddress.
        rewrite (proj2 (uses_query is_current api _ _ _) eq_refl). lia.
  - unfold GetProposal_at. split.
    + apply uses_query.
    + rewrite (proj2 (uses_query is_current api _ _ _) eq_refl). lia.
Qed.

(** X6. Whatever its arguments and whatever the collaborators answer, an
    operation calls the evaluation entry point at most twice
    ([GetAllProducers], [GetVoteInfo]), once ([GetProposal]) or never
    ([GetActiveProducers], [GetPendingProducer]); it asks storage for a
    header by number at most once and reads the current header at most
    twice. *)
Theorem collaborator_usage_bounded (core : CorePkg) (api : API)
    (op : HeightOp) (blockNumber : option Z) :
  (uses is_call (facade core api op blockNumber) <= calls_bound op)%nat /\
  (uses is_fetch (facade core api op blockNumber) <= 1)%nat /\
  (uses is_current (facade core api op blockNumber) <= 2)%nat.
Proof.
  rewrite facade_resolve.
  destruct (uses_resolveHeader api blockNumber) as [Hc [Hf Hh]].
  split; [| split].
  - apply (uses_bind is_call _ _ 0 (calls_bound op)).
    + lia.
    + intros header. apply uses_facade_at.
  - apply (uses_bind is_fetch _ _ 1 0).
    + exact Hf.
    + intros header. rewrite quiet_uses; [lia |].
      apply facade_at_no_fetch.
  - apply (uses_bind is_current _ _ 1 1).
    + exact Hh.
    + intros header. apply uses_facade_at.
Qed.

Lemma uses_quiet {A} (p : Event -> bool) (m : M A) :
  uses p m = 0%nat -> quiet p m.
Proof.
  unfold quiet, uses. induction (trace m) as [| e t IH]; simpl.
  - constructor.
  - destruct (p e) eqn:E; [discriminate |]. constructor; auto.
Qed.

Lemma resolveHeader_no_call (api : API) (blockNumber : option Z) :
  quiet is_call (resolveHeader api blockNumber).
Proof. apply uses_quiet, uses_resolveHeader. Qed.

(** X7. A height that does not resolve to a header never reaches the state
    machine: when header resolution ends in an error or a panic, the
    operation ends the same way and the evaluation entry point is not
    called. *)
Theorem unresolved_height_makes_no_call (core : CorePkg) (api : API)
    (op : HeightOp) (blockNumber : option Z) :
  (forall hd, outcome (resolveHeader api blockNumber) <> Ok hd) ->
  quiet is_call (facade core api op blockNumber) /\
  trace (facade core api op blockNumber) = trace (resolveHeader api blockNumber) /\
  (forall e, outcome (resolveHeader api blockNumber) = Err e ->
             outcome (facade core api op blockNumber) = Err e) /\
  (outcome (resolveHeader api blockNumber) = Panic ->
   outcome (facade core api op blockNumber) = Panic).
Proof.
  intros Hno. rewrite facade_resolve.
  pose proof (resolveHeader_no_call api blockNumber) as Hq.
  destruct (resolveHeader api blockNumber) as [t [hd | e | ]] eqn:E.
  - now destruct (Hno hd).
  - simpl. repeat split; [exact Hq | now intros e' [= <-] | discriminate].
  - simpl. repeat split; [exact Hq | discriminate].
Qed.

(** ** Errors of the contract queries *)

(** X8. Whatever error the system-contract lookup returns inside
    [GetAllProducers] or [GetVoteInfo], the caller receives the fixed error
    "can't get reg contract address", respectively "can't get vote
    contract address", in its place. *)
Theorem lookup_error_masked (core : CorePkg) (api : API)
    (blockNumber : option Z) (header : Header) :
  outcome (resolveHeader api blockNumber) = Ok header ->
  (forall e sizeNumber,
     outcome (GetSystemContract core api regContract) = Err e ->
     outcome (GetAllProducers core api blockNumber sizeNumber) =
     Err (errors_New "can't get reg contract address")) /\
  (forall e addr,
     outcome (GetSystemContract core api voteContract) = Err e ->
     outcome (GetVoteInfo core api addr blockNumber) =
     Err (errors_New "can't get vote contract address")).
Proof.
  intros Hres.
  destruct (resolveHeader api blockNumber) as [t r] eqn:E.
  simpl in Hres. subst r.
  split.
  - intros e sz Hsys. unfold GetAllProducers. rewrite E, bind_log, outcome_of_log.
    unfold GetAllProducers_at, fetchProducers.
    destruct (GetSystemContract core api regContract) as [t' r].
    simpl in Hsys. subst r. reflexivity.
  - intros e addr Hsys. unfold GetVoteInfo. rewrite E, bind_log, outcome_of_log.
    unfold GetVoteInfo_at.
    destruct (GetSystemContract core api voteContract) as [t' r].
    simpl in Hsys. subst r. reflexivity.
Qed.

(** X9. An error of the evaluation entry point on the query itself is
    returned unchanged by [GetAllProducers], [GetVoteInfo] and
    [GetProposal]; the query is sent at the height of the resolved header,
    for the first two to the address the lookup returned, for the third to
    the main system contract. *)
Theorem query_error_returned (core : CorePkg) (api : API)
    (blockNumber : option Z) (header : Header) (to : Address)
    (inputData : bytes) (e : error) :
  outcome (resolveHeader api blockNumber) = Ok header ->
  Call (dpos api)
       (NewCallMsg to inputData (Big.Uint64 (Number header))) = inl e ->
  (forall sizeNumber,
     outcome (GetSystemContract core api regContract) = Ok to ->
     Pack (RegABI (NewSystemContractCaller core)) "getAllProducersInfo" []
       = inr inputData ->
     outcome (GetAllProducers core api blockNumber sizeNumber) = Err e) /\
  (forall addr,
     outcome (GetSystemContract core api voteContract) = Ok to ->
     Pack (VoteABI (NewSystemContractCaller core)) "getVoteInfo"
          [ArgAddressPtr addr] = inr inputData ->
     outcome (GetVoteInfo core api addr blockNumber) = Err e) /\
  (to = MainSystemContractAddr core ->
   Pack (MainABI (NewSystemContractCaller core)) "getProposal" []
     = inr inputData ->
   outcome (GetProposal core api blockNumber) = Err e).
Proof.
  intros Hres Hcall.
  destruct (resolveHeader api blockNumber) as [t r] eqn:E.
  simpl in Hres. subst r.
  split; [| split].
  - intros sz Hsys Hpack.
    unfold GetAllProducers. rewrite E, bind_log, outcome_of_log.
    unfold GetAllProducers_at, fetchProducers.
    destruct (GetSystemContract core api regContract) as [t' r].
    simpl in Hsys. subst r. simpl orElse. rewrite bind_log, Hpack.
    simpl orReturn. rewrite bind_ret. unfold dpos_Call. rewrite Hcall.
    reflexivity.
  - intros addr Hsys Hpack.
    unfold GetVoteInfo. rewrite E, bind_log, outcome_of_log.
    unfold GetVoteInfo_at.
    destruct (GetSystemContract core api voteContract) as [t' r].
    simpl in Hsys. subst r. simpl orElse. rewrite bind_log, Hpack.
    simpl orReturn. rewrite bind_ret. unfold dpos_Call. rewrite Hcall.
    reflexivity.
  - intros -> Hpack.
    unfold GetProposal. rewrite E, bind_log, outcome_of_log.
    unfold GetProposal_at. rewrite Hpack.
    simpl orReturn. rewrite bind_ret. unfold dpos_Call. rewrite Hcall.
    reflexivity.
Qed.

(** X10. [GetProposal] never looks a contract address up: every evaluation
    call it makes goes to the main system contract, at the height of the
    header it resolved. *)
Theorem GetProposal_calls_main_only (core : CorePkg) (api : API)
    (blockNumber : option Z) (header : Header) :
  outcome (resolveHeader api blockNumber) = Ok header ->
  calls_only (MainSystemContractAddr core) (Big.Uint64 (Number header))
             (trace (GetProposal core api blockNumber)).
Proof.
  intros Hres. pose proof (resolveHeader_no_call api blockNumber) as Hq.
  destruct (resolveHeader api blockNumber) as [t r] eqn:E.
  simpl in Hres. subst r.
  unfold GetProposal. rewrite E, bind_log, trace_log.
  unfold calls_only. apply Forall_app. split.
  - eapply Forall_impl; [| exact Hq].
    intros [| n | msg] Hev; simpl in *; [trivial | trivial | discriminate].
  - unfold GetProposal_at.
    destruct (Pack _ _ _) as [e | inputData]; [constructor |].
    simpl orReturn. rewrite bind_ret. unfold dpos_Call.
    destruct (Call (dpos api) _) as [e | data].
    + repeat constructor.
    + rewrite bind_log.
      destruct (UnpackProposal _ _ data); repeat constructor.
Qed.

(** ** The ranking step, whatever GetTop returns *)

Lemma rankProducers_With (pa : list Address) (w : list Z) (amount : Z)
    (sizeNumber : option Z) :
  rankProducers pa w amount sizeNumber =
  rankProducersWith GetTop pa w amount sizeNumber.
Proof. reflexivity. Qed.

Lemma collectTop_no_error (pa : list Address) (sp : sortNumSlice)
    (todo i : nat) (acc : list ProducerInfo) (e : error) :
  outcome (collectTop pa sp i todo acc) <> Err e.
Proof.
  revert i acc. induction todo as [| todo IH]; intros i acc; simpl.
  - discriminate.
  - destruct (nth_error sp i) as [sn |]; [| discriminate].
    simpl deref. rewrite bind_ret.
    destruct (nth_error pa (serial sn)) as [addr |]; [| discriminate].
    simpl deref. rewrite bind_ret. apply IH.
Qed.

Lemma collectTop_ok_gen (pa : list Address) (sp : sortNumSlice)
    (todo i : nat) (acc : list ProducerInfo) :
  (todo <= List.length (skipn i sp))%nat ->
  Forall (fun sn => (serial sn < List.length pa)%nat)
         (firstn todo (skipn i sp)) ->
  exists infos, collectTop pa sp i todo acc = ([], Ok (acc ++ infos)).
Proof.
  revert i acc. induction todo as [| todo IH]; intros i acc Hlen Hpa; simpl.
  - exists []. now rewrite app_nil_r.
  - destruct (nth_error sp i) as [sn |] eqn:Hsn.
    2:{ apply nth_error_None in Hsn.
        rewrite skipn_all2 in Hlen by assumption. simpl in Hlen. lia. }
    rewrite (skipn_nth_error _ _ _ Hsn) in Hlen, Hpa.
    cbn [List.length firstn] in Hlen, Hpa.
    inversion Hpa as [| ? ? Hin Hrest]; subst.
    simpl deref. rewrite bind_ret.
    destruct (nth_error pa (serial sn)) as [addr |] eqn:Haddr.
    2:{ apply nth_error_None in Haddr. lia. }
    simpl deref. rewrite bind_ret.
    destruct (IH (S i) (acc ++ [mkProducerInfo addr (num sn)])) as [infos E];
      [lia | assumption |].
    exists (mkProducerInfo addr (num sn) :: infos).
    rewrite E, <- app_assoc. reflexivity.
Qed.

Lemma picks_in_range (pa : list Address) (sel : sortNumSlice)
    (infos : list ProducerInfo) :
  Forall2 (picks pa) sel infos ->
  Forall (fun sn => (serial sn < List.length pa)%nat) sel.
Proof.
  induction 1 as [| sn p sel infos [Hp _] _ IH]; constructor; [| exact IH].
  apply nth_error_Some. congruence.
Qed.

Lemma selectNumber_no_panic (len size amount : Z) :
  outcome (selectNumber len size amount) <> Panic.
Proof.
  unfold selectNumber.
  repeat match goal with |- context [if ?c then _ else _] => destruct c end;
    discriminate.
Qed.

Lemma selectNumber_Err_iff (len size amount : Z) (e : error) :
  outcome (selectNumber len size amount) = Err e <->
  e = errTooFewProducers /\ size = 0 /\ len < Big.Uint64 amount.
Proof.
  unfold selectNumber.
  destruct (Z.ltb_spec size 0); [split; [discriminate | lia] |].
  destruct (Z.eqb_spec size 0).
  - destruct (Z.gtb_spec (Big.Uint64 amount) len); simpl; split.
    + intros [= <-]. repeat split; lia.
    + now intros [-> _].
    + discriminate.
    + lia.
  - destruct (Z.gtb_spec size len); split; try discriminate; lia.
Qed.

Section AnyGetTop.

Variable getTop : sortNumSlice -> Z -> sortNumSlice.

Lemma rankProducersWith_unfold (pa : list Address) (w : list Z)
    (amount s : Z) :
  rankProducersWith getTop pa w amount (Some s) =
  match selectNumber (Z.of_nat (List.length w)) (Big.Int64 s) amount with
  | (_, Ok n) =>
      match collectTop pa (getTop (tableOf w) n) 0 (Z.to_nat n) [] with
      | (_, Ok ps) => ([], Ok (mkProducersInfo ps amount))
      | (_, Err e) => ([], Err e)
      | (_, Panic) => ([], Panic)
      end
  | (_, Err e) => ([], Err e)
  | (_, Panic) => ([], Panic)
  end.
Proof.
  unfold rankProducersWith. simpl deref. rewrite bind_ret.
  pose proof (selectNumber_silent (Z.of_nat (List.length w)) (Big.Int64 s) amount) as Ht.
  destruct (selectNumber _ _ _) as [t [n | e | ]]; simpl in Ht; subst t;
    try reflexivity.
  rewrite bind_log, log_nil. fold (tableOf w).
  pose proof (collectTop_silent pa (getTop (tableOf w) n) (Z.to_nat n) 0 []) as Hc.
  destruct (collectTop _ _ _ _ _) as [t [ps | e | ]]; simpl in Hc; subst t;
    reflexivity.
Qed.

(** X11. Whatever [GetTop] returns, a list returned by the ranking step is
    the first [getNumber] entries of it, in its order, each paired with
    [producersAddr] at the entry's index and with the entry's weight; the
    list is never longer than the weight array, and [Size] is the decoded
    [amount] untouched. *)
Theorem ranked_list_is_prefix_of_GetTop (pa : list Address) (w : list Z)
    (amount : Z) (sizeNumber : option Z) (info : ProducersInfo) :
  outcome (rankProducersWith getTop pa w amount sizeNumber) = Ok info ->
  exists s n,
    sizeNumber = Some s /\
    outcome (selectNumber (Z.of_nat (List.length w)) (Big.Int64 s) amount) = Ok n /\
    Forall2 (picks pa) (firstn (Z.to_nat n) (getTop (tableOf w) n))
            (Producers info) /\
    List.length (Producers info) = Z.to_nat n /\
    (List.length (Producers info) <= List.length w)%nat /\
    Size info = amount.
Proof.
  destruct sizeNumber as [s |]; [| discriminate].
  rewrite rankProducersWith_unfold.
  destruct (selectNumber _ _ _) as [t [n | e | ]] eqn:Hsel; try discriminate.
  destruct (collectTop _ _ _ _ _) as [t' [ps | e | ]] eqn:Hc; try discriminate.
  intros [= <-].
  destruct (collectTop_inv pa _ _ _ _ ps (f_equal snd Hc)) as [infos [-> [HF HL]]].
  pose proof (selectNumber_bounds _ _ _ n (Nat2Z.is_nonneg _)
                (f_equal snd Hsel)) as Hn.
  exists s, n. simpl in *.
  split; [reflexivity |]. split; [now rewrite Hsel |]. split; [exact HF |].
  split; [exact HL |]. split; [lia | reflexivity].
Qed.

(** X12. Whatever [GetTop] returns, the ranking step returns an error in
    one case only: [sizeNumber] converts to 0 and the low 64 bits of
    [amount] exceed the number of weights; the error is then
    [errTooFewProducers]. *)
Theorem ranking_error_iff (pa : list Address) (w : list Z) (amount : Z)
    (sizeNumber : option Z) (e : error) :
  outcome (rankProducersWith getTop pa w amount sizeNumber) = Err e <->
  e = errTooFewProducers /\
  exists s, sizeNumber = Some s /\ Big.Int64 s = 0 /\
            Z.of_nat (List.length w) < Big.Uint64 amount.
Proof.
  destruct sizeNumber as [s |].
  2:{ split; [discriminate | intros [_ [s [Hs _]]]; discriminate]. }
  rewrite rankProducersWith_unfold.
  pose proof (selectNumber_Err_iff (Z.of_nat (List.length w)) (Big.Int64 s)
                amount e) as Hsel.
  destruct (selectNumber _ _ _) as [t [n | e' | ]]; simpl in Hsel.
  - pose proof (collectTop_no_error pa (getTop (tableOf w) n) (Z.to_nat n) 0 []) as Hne.
    destruct (collectTop _ _ _ _ _) as [t' [ps | e' | ]]; simpl in Hne; split;
      try discriminate.
    + intros [He [s' [[= <-] Hrest]]].
      assert (X : Ok n = Err e) by (apply Hsel; tauto). discriminate.
    + intros _. now destruct (Hne e').
    + intros [He [s' [[= <-] Hrest]]].
      assert (X : Ok n = Err e) by (apply Hsel; tauto). discriminate.
    + intros [He [s' [[= <-] Hrest]]].
      assert (X : Ok n = Err e) by (apply Hsel; tauto). discriminate.
  - unfold outcome in *. simpl in *. split.
    + intros [= ->]. destruct (proj1 Hsel eq_refl) as [-> Hrest].
      split; [reflexivity |]. now exists s.
    + intros [He [s' [[= <-] Hrest]]].
      assert (X : @Err Z e' = Err e) by (apply Hsel; tauto).
      now injection X as ->.
  - simpl. split; [discriminate |].
    intros [He [s' [[= <-] Hrest]]].
    assert (X : Panic = Err e) by (apply Hsel; tauto). discriminate.
Qed.

(** X13. Whatever [GetTop] returns, once the size policy has chosen
    [getNumber] the ranking step returns a list exactly when [GetTop]
    handed back at least [getNumber] entries and the first [getNumber] of
    them carry indices inside [producersAddr]; in every other case the
    loop runs off a slice and the call panics. *)
Theorem ranking_returns_iff (pa : list Address) (w : list Z)
    (amount s n : Z) :
  outcome (selectNumber (Z.of_nat (List.length w)) (Big.Int64 s) amount) = Ok n ->
  let top := getTop (tableOf w) n in
  let fits := (Z.to_nat n <= List.length top)%nat /\
              Forall (fun sn => (serial sn < List.length pa)%nat)
                     (firstn (Z.to_nat n) top) in
  ((exists info,
      outcome (rankProducersWith getTop pa w amount (Some s)) = Ok info) <->
   fits) /\
  (~ fits ->
   outcome (rankProducersWith getTop pa w amount (Some s)) = Panic).
Proof.
  intros Hsel top fits. rewrite rankProducersWith_unfold.
  destruct (selectNumber _ _ _) as [t r]; simpl in Hsel; subst r.
  fold top.
  assert (Hiff : (exists ps, outcome (collectTop pa top 0 (Z.to_nat n) []) = Ok ps)
                 <-> fits).
  { split.
    - intros [ps Hps].
      destruct (collectTop_inv _ _ _ _ _ _ Hps) as [infos [_ [HF HL]]].
      simpl skipn in HF. pose proof (Forall2_length HF) as Hlen.
      rewrite length_firstn in Hlen. split; [lia |].
      now apply picks_in_range with (infos := infos).
    - intros [Hlen Hin].
      destruct (collectTop_ok_gen pa top (Z.to_nat n) 0 []) as [infos E];
        [exact Hlen | exact Hin |].
      exists infos. now rewrite E. }
  pose proof (collectTop_no_error pa top (Z.to_nat n) 0 []) as Hne.
  destruct (collectTop pa top 0 (Z.to_nat n) []) as [t' [ps | e | ]];
    simpl in *.
  - split.
    + split; [intros _; apply Hiff; now exists ps | intros _; eauto].
    + intros Hnot. destruct Hnot. apply Hiff. now exists ps.
  - now destruct (Hne e).
  - split; [| reflexivity].
    split.
    + intros [info Hinfo]. discriminate.
    + intros Hfits. apply Hiff in Hfits as [ps Hps]. discriminate.
Qed.

End AnyGetTop.

(** ** The size argument in 64 bits *)

Lemma int64_of_uint64_range (u : Z) :
  0 <= u < Big.two64 ->
  - Big.two63 <= Big.int64_of_uint64 u < Big.two63.
Proof.
  unfold Big.int64_of_uint64, Big.two63, Big.two64. intros Hu.
  destruct (Z.ltb_spec u (2 ^ 63)); lia.
Qed.

Lemma Int64_mod (x : Z) : Big.Int64 x = Big.int64_of_uint64 (x mod Big.two64).
Proof.
  unfold Big.Int64, Big.neg_int64, Big.low64.
  destruct (Z.ltb_spec x 0) as [Hneg | Hpos].
  - rewrite Z.abs_neq by lia. f_equal.
    set (u := (- x) mod Big.two64).
    assert (Hu : (0 - u) mod Big.two64 = x mod Big.two64).
    { unfold u. rewrite Zminus_mod_idemp_r. f_equal. lia. }
    unfold Big.int64_of_uint64 at 1.
    destruct (u <? Big.two63).
    + rewrite <- Hu. f_equal.
    + rewrite <- Hu, <- (Z_mod_plus_full (0 - u) 1 Big.two64). f_equal. lia.
  - now rewrite Z.abs_eq by lia.
Qed.

Lemma Int64_range (x : Z) : - Big.two63 <= Big.Int64 x < Big.two63.
Proof.
  rewrite Int64_mod. apply int64_of_uint64_range.
  apply Z.mod_pos_bound. reflexivity.
Qed.

Lemma Int64_congruent (x : Z) : Big.Int64 x mod Big.two64 = x mod Big.two64.
Proof.
  rewrite Int64_mod. unfold Big.int64_of_uint64.
  destruct (x mod Big.two64 <? Big.two63).
  - apply Z.mod_mod. discriminate.
  - replace (x mod Big.two64 - Big.two64)
      with (x mod Big.two64 + (-1) * Big.two64) by lia.
    rewrite Z_mod_plus_full. apply Z.mod_mod. discriminate.
Qed.

(** X14. The ranking step reads [sizeNumber] in 64 bits: its result for
    [sizeNumber] is its result for [sizeNumber.Int64()], a value in the
    [int64] range that differs from [sizeNumber] by a multiple of 2^64;
    hence two sizes that differ by a multiple of 2^64 are ranked alike,
    whatever [GetTop] returns. *)
Theorem sizeNumber_read_in_64_bits
    (getTop : sortNumSlice -> Z -> sortNumSlice) (pa : list Address)
    (w : list Z) (amount s : Z) :
  (- Big.two63 <= Big.Int64 s < Big.two63 /\
   Big.Int64 s mod Big.two64 = s mod Big.two64) /\
  rankProducersWith getTop pa w amount (Some s) =
  rankProducersWith getTop pa w amount (Some (Big.Int64 s)) /\
  (forall s', s mod Big.two64 = s' mod Big.two64 ->
     rankProducersWith getTop pa w amount (Some s) =
     rankProducersWith getTop pa w amount (Some s')).
Proof.
  split; [split; [apply Int64_range | apply Int64_congruent] |].
  split.
  - rewrite !rankProducersWith_unfold.
    now rewrite (Int64_small (Big.Int64 s)) by apply Int64_range.
  - intros s' Hs. rewrite !rankProducersWith_unfold.
    now rewrite (Int64_mod s), (Int64_mod s'), Hs.
Qed.

(** ** The sort table *)

Lemma appendWeights_nums (w : list Z) (i : nat) :
  map num (appendWeights w i []) = w.
Proof.
  revert i. induction w as [| x w IH]; intros i.
  - reflexivity.
  - rewrite appendWeights_cons. simpl. now rewrite IH.
Qed.

(** X15. The loop over [weight] builds a table with one entry per weight,
    in decoding order: the serials are 0, 1, ..., len-1 and the weights
    are the decoded weights, so entry [i] pairs index [i] with
    [weight[i]]. *)
Theorem sort_table_contents (w : list Z) :
  map serial (tableOf w) = seq 0 (List.length w) /\
  map num (tableOf w) = w /\
  forall i e, nth_error (tableOf w) i = Some e ->
              serial e = i /\ nth_error w i = Some (num e).
Proof.
  split; [apply tableOf_serials |]. split; [apply appendWeights_nums |].
  intros i e He.
  assert (Hs : nth_error (map serial (tableOf w)) i = Some (serial e))
    by (rewrite nth_error_map, He; reflexivity).
  assert (Hn : nth_error (map num (tableOf w)) i = Some (num e))
    by (rewrite nth_error_map, He; reflexivity).
  rewrite tableOf_serials in Hs. unfold tableOf in Hn.
  rewrite appendWeights_nums in Hn. split; [| exact Hn].
  assert (Hi : (i < List.length (seq 0 (List.length w)))%nat)
    by (apply nth_error_Some; congruence).
  rewrite length_seq in Hi.
  rewrite (nth_error_nth' _ 0%nat) in Hs by (rewrite length_seq; exact Hi).
  rewrite seq_nth in Hs by exact Hi. now injection Hs.
Qed.

(** ** GetSystemContract on a name *)

(** X16. For a name that is not empty, [GetSystemContract] reads the
    current header and packs the call; a packing error is returned before
    anything is sent. Otherwise, with a current header, it sends one call
    to the main system contract at the current height and returns the
    decoded address, or the error of the call or of the decoder
    unchanged. *)
Theorem GetSystemContract_on_name (core : CorePkg) (api : API)
    (name : string) :
  name <> ""%string ->
  match Pack (MainABI (systemContract (dpos api))) "getSystemContract"
             [ArgString name] with
  | inl e => GetSystemContract core api name = ([EvCurrentHeader], Err e)
  | inr inputData =>
      forall cur, CurrentHeader (chain api) = Some cur ->
        trace (GetSystemContract core api name) =
          [EvCurrentHeader; EvCall (registryCall core cur inputData)] /\
        outcome (GetSystemContract core api name) =
          match Call (dpos api) (registryCall core cur inputData) with
          | inl e => Err e
          | inr data =>
              match UnpackAddress (MainABI (NewSystemContractCaller core))
                                  "getSystemContract" data with
              | inl e => Err e
              | inr address => Ok address
              end
          end
  end.
Proof.
  intros Hname. apply String.eqb_neq in Hname.
  destruct (Pack _ _ _) as [e | inputData] eqn:Hpack.
  - unfold GetSystemContract, chain_CurrentHeader.
    rewrite Hname, bind_log, Hpack. reflexivity.
  - intros cur Hcur.
    rewrite (GetSystemContract_run core api name cur inputData Hname Hcur Hpack).
    destruct (Call (dpos api) (registryCall core cur inputData)) as [e | data].
    + split; reflexivity.
    + destruct (UnpackAddress _ _ data); split; reflexivity.
Qed.

(** * The further properties at work on the small chains *)

Lemma height_zero_is_current_witness :
  CurrentHeader (chain Demo.apiABC) = Some (Demo.header_at 10) /\
  0 <= Number (Demo.header_at 10) /\
  facade Demo.coreABC Demo.apiABC OpGetPendingProducer (Some 0) =
  ([EvCurrentHeader], Ok (AnsAddresses [12%N])).
Proof.
  assert (Hcur : CurrentHeader (chain Demo.apiABC) = Some (Demo.header_at 10))
    by reflexivity.
  assert (Hnn : 0 <= Number (Demo.header_at 10)) by discriminate.
  split; [exact Hcur |]. split; [exact Hnn |].
  exact (height_zero_is_current Demo.coreABC Demo.apiABC OpGetPendingProducer
           (Demo.header_at 10) Hcur Hnn).
Defined.

Lemma nil_current_header_panics_witness :
  CurrentHeader (chain Demo.apiEmpty) = None /\
  0 <= 3 /\
  facade Demo.coreABC Demo.apiEmpty OpGetProposal (Some 3) =
  ([EvCurrentHeader], Panic).
Proof.
  assert (Hnn : 0 <= 3) by discriminate.
  split; [reflexivity |]. split; [exact Hnn |].
  exact (nil_current_header_panics Demo.coreABC Demo.apiEmpty OpGetProposal 3
           eq_refl Hnn).
Defined.

Lemma producers_returned_iff_witness :
  header_origin Demo.apiABC (Some 4) (Demo.header_at 4) /\
  outcome (GetActiveProducers Demo.apiABC (Some 4)) = Ok [4%N; 5%N] /\
  outcome (GetPendingProducer Demo.apiABC (Some 4)) = Ok [6%N].
Proof.
  assert (Ho : header_origin Demo.apiABC (Some 4) (Demo.header_at 4)).
  { exists (Demo.header_at 10). split; [reflexivity |].
    right. repeat split; reflexivity. }
  split; [exact Ho |]. split.
  - apply (proj1 (producers_returned_iff Demo.apiABC (Some 4) [4%N; 5%N])).
    exists (Demo.header_at 4). split; [exact Ho | reflexivity].
  - apply (proj2 (producers_returned_iff Demo.apiABC (Some 4) [6%N])).
    exists (Demo.header_at 4). split; [exact Ho | reflexivity].
Defined.

Lemma producers_errors_iff_witness :
  lookup_misses Demo.apiABC (Some 7) /\
  outcome (GetActiveProducers Demo.apiABC (Some 7)) = Err errUnknownBlock /\
  invalid_height Demo.apiABC (Some 11) /\
  outcome (GetPendingProducer Demo.apiABC (Some 11)) = Err errInvalidInput.
Proof.
  assert (Hm : lookup_misses Demo.apiABC (Some 7)).
  { exists (Demo.header_at 10). repeat split; reflexivity. }
  assert (Hi : invalid_height Demo.apiABC (Some 11)).
  { exists 11. split; [reflexivity |]. right.
    exists (Demo.header_at 10). split; reflexivity. }
  split; [exact Hm |]. split; [| split; [exact Hi |]].
  - apply (proj1 (producers_errors_iff Demo.apiABC (Some 7) errUnknownBlock)).
    right. split; [reflexivity | exact Hm].
  - apply (proj2 (producers_errors_iff Demo.apiABC (Some 11) errInvalidInput)).
    left. split; [reflexivity | exact Hi].
Defined.


Lemma unresolved_height_makes_no_call_witness :
  (forall hd, outcome (resolveHeader Demo.apiABC (Some 7)) <> Ok hd) /\
  quiet is_call (facade Demo.coreABC Demo.apiABC OpGetProposal (Some 7)) /\
  outcome (facade Demo.coreABC Demo.apiABC OpGetProposal (Some 7))
  = Err errUnknownBlock.
Proof.
  assert (Hno : forall hd, outcome (resolveHeader Demo.apiABC (Some 7)) <> Ok hd)
    by (intros hd; discriminate).
  destruct (unresolved_height_makes_no_call Demo.coreABC Demo.apiABC
              OpGetProposal (Some 7) Hno) as [Hq [_ [He _]]].
  split; [exact Hno |]. split; [exact Hq |].
  apply He. reflexivity.
Defined.

Lemma lookup_error_masked_witness :
  outcome (resolveHeader DemoDown.api None) = Ok (Demo.header_at 10) /\
  outcome (GetSystemContract DemoDown.core DemoDown.api regContract)
  = Err DemoDown.down /\
  outcome (GetAllProducers DemoDown.core DemoDown.api None (Some 0))
  = Err (errors_New "can't get reg contract address").
Proof.
  assert (Hres : outcome (resolveHeader DemoDown.api None)
                 = Ok (Demo.header_at 10)) by reflexivity.
  assert (Hsys : outcome (GetSystemContract DemoDown.core DemoDown.api regContract)
                 = Err DemoDown.down) by reflexivity.
  split; [exact Hres |]. split; [exact Hsys |].
  exact (proj1 (lookup_error_masked DemoDown.core DemoDown.api None
                  (Demo.header_at 10) Hres)
           DemoDown.down (Some 0) Hsys).
Defined.

Lemma query_error_returned_witness :
  outcome (resolveHeader DemoDown.apiLookupOnly (Some 4)) = Ok (Demo.header_at 4) /\
  outcome (GetSystemContract DemoDown.core DemoDown.apiLookupOnly regContract)
  = Ok 77%N /\
  outcome (GetAllProducers DemoDown.core DemoDown.apiLookupOnly (Some 4) (Some 0))
  = Err DemoDown.down.
Proof.
  assert (Hres : outcome (resolveHeader DemoDown.apiLookupOnly (Some 4))
                 = Ok (Demo.header_at 4)) by reflexivity.
  assert (Hsys : outcome (GetSystemContract DemoDown.core DemoDown.apiLookupOnly
                            regContract) = Ok 77%N) by reflexivity.
  split; [exact Hres |]. split; [exact Hsys |].
  exact (proj1 (query_error_returned DemoDown.core DemoDown.apiLookupOnly
                  (Some 4) (Demo.header_at 4) 77%N
                  (list_byte_of_string "getAllProducersInfo") DemoDown.down
                  Hres eq_refl)
           (Some 0) Hsys eq_refl).
Defined.

Lemma GetProposal_calls_main_only_witness :
  outcome (resolveHeader Demo.apiABC (Some 4)) = Ok (Demo.header_at 4) /\
  calls_only 1%N 4 (trace (GetProposal Demo.coreABC Demo.apiABC (Some 4))).
Proof.
  assert (Hres : outcome (resolveHeader Demo.apiABC (Some 4))
                 = Ok (Demo.header_at 4)) by reflexivity.
  split; [exact Hres |].
  exact (GetProposal_calls_main_only Demo.coreABC Demo.apiABC (Some 4)
           (Demo.header_at 4) Hres).
Defined.

Lemma ranked_list_is_prefix_of_GetTop_witness :
  let info := mkProducersInfo [mkProducerInfo 11%N 5; mkProducerInfo 12%N 5] 2 in
  outcome (rankProducersWith GetTop [11%N; 12%N; 13%N] [5; 5; 3] 2 (Some 0))
  = Ok info /\
  exists s n,
    Some 0 = Some s /\
    outcome (selectNumber (Z.of_nat (List.length [5; 5; 3])) (Big.Int64 s) 2)
    = Ok n /\
    Forall2 (picks [11%N; 12%N; 13%N])
            (firstn (Z.to_nat n) (GetTop (tableOf [5; 5; 3]) n))
            (Producers info) /\
    List.length (Producers info) = Z.to_nat n /\
    (List.length (Producers info) <= List.length [5; 5; 3])%nat /\
    Size info = 2.
Proof.
  intros info.
  assert (H : outcome (rankProducersWith GetTop [11%N; 12%N; 13%N] [5; 5; 3] 2
                         (Some 0)) = Ok info) by reflexivity.
  split; [exact H |].
  exact (ranked_list_is_prefix_of_GetTop GetTop [11%N; 12%N; 13%N] [5; 5; 3] 2
           (Some 0) info H).
Defined.

Lemma ranking_error_iff_witness :
  Big.Int64 0 = 0 /\
  Z.of_nat (List.length [5; 5; 3]) < Big.Uint64 4 /\
  outcome (rankProducersWith GetTop [11%N; 12%N; 13%N] [5; 5; 3] 4 (Some 0))
  = Err errTooFewProducers.
Proof.
  assert (H0 : Big.Int64 0 = 0) by reflexivity.
  assert (H1 : Z.of_nat (List.length [5; 5; 3]) < Big.Uint64 4) by reflexivity.
  split; [exact H0 |]. split; [exact H1 |].
  apply (proj2 (ranking_error_iff GetTop [11%N; 12%N; 13%N] [5; 5; 3] 4
                  (Some 0) errTooFewProducers)).
  split; [reflexivity |]. exists 0. split; [reflexivity |].
  split; [exact H0 | exact H1].
Defined.

(** A [GetTop] that hands back one entry fewer than it is asked for. *)
Lemma ranking_returns_iff_witness :
  let short (s : sortNumSlice) (n : Z) := GetTop s (n - 1) in
  outcome (selectNumber (Z.of_nat (List.length [5; 5; 3])) (Big.Int64 2) 2)
  = Ok 2 /\
  outcome (rankProducersWith short [11%N; 12%N; 13%N] [5; 5; 3] 2 (Some 2))
  = Panic /\
  exists info,
    outcome (rankProducersWith GetTop [11%N; 12%N; 13%N] [5; 5; 3] 2 (Some 2))
    = Ok info.
Proof.
  intros short.
  assert (Hsel : outcome (selectNumber (Z.of_nat (List.length [5; 5; 3]))
                            (Big.Int64 2) 2) = Ok 2) by reflexivity.
  split; [exact Hsel |]. split.
  - apply (proj2 (ranking_returns_iff short [11%N; 12%N; 13%N] [5; 5; 3] 2 2 2
                    Hsel)).
    intros [Hlen _]. vm_compute in Hlen. lia.
  - apply (proj1 (ranking_returns_iff GetTop [11%N; 12%N; 13%N] [5; 5; 3] 2 2 2
                    Hsel)).
    split.
    + vm_compute. lia.
    + vm_compute. repeat constructor.
Defined.

Lemma sizeNumber_read_in_64_bits_witness :
  1 mod Big.two64 = (2 ^ 64 + 1) mod Big.two64 /\
  rankProducersWith GetTop [11%N; 12%N; 13%N] [5; 5; 3] 2 (Some 1) =
  rankProducersWith GetTop [11%N; 12%N; 13%N] [5; 5; 3] 2 (Some (2 ^ 64 + 1)).
Proof.
  assert (H : 1 mod Big.two64 = (2 ^ 64 + 1) mod Big.two64) by reflexivity.
  split; [exact H |].
  exact (proj2 (proj2 (sizeNumber_read_in_64_bits GetTop [11%N; 12%N; 13%N]
                         [5; 5; 3] 2 1))
           (2 ^ 64 + 1) H).
Defined.

Lemma sort_table_contents_witness :
  nth_error (tableOf [5; 5; 3]) 2 = Some (mkSortNum 2 3) /\
  serial (mkSortNum 2 3) = 2%nat /\
  nth_error [5; 5; 3] 2 = Some (num (mkSortNum 2 3)).
Proof.
  assert (H : nth_error (tableOf [5; 5; 3]) 2 = Some (mkSortNum 2 3))
    by reflexivity.
  split; [exact H |].
  exact (proj2 (proj2 (sort_table_contents [5; 5; 3])) 2%nat (mkSortNum 2 3) H).
Defined.

Lemma GetSystemContract_on_name_witness :
  regContract <> ""%string /\
  trace (GetSystemContract Demo.coreABC Demo.apiABC regContract) =
    [EvCurrentHeader;
     EvCall (registryCall Demo.coreABC (Demo.header_at 10)
                          (list_byte_of_string "getSystemContract"))] /\
  outcome (GetSystemContract Demo.coreABC Demo.apiABC regContract) = Ok 77%N.
Proof.
  assert (Hname : regContract <> ""%string) by discriminate.
  split; [exact Hname |].
  exact (GetSystemContract_on_name Demo.coreABC Demo.apiABC regContract Hname
           (Demo.header_at 10) eq_refl).
Defined.

(** ** The second read of the current header *)

Lemma bindR_ok {A B} (m : Rel.R A) (k : A -> Rel.R B) (t t' : list Event)
    (a : A) (r : Result B) (out : M B) :
  m (t, Ok a) -> k a (t', r) -> out = (t ++ t', r) -> Rel.bindR m k out.
Proof.
  intros Hm Hk ->. exists t, (Ok a). split; [exact Hm |].
  exists t', r. now split.
Qed.

Lemma bindR_panic {A B} (m : Rel.R A) (k : A -> Rel.R B) (t : list Event) :
  m (t, Panic) -> Rel.bindR m k (t, Panic).
Proof. intros Hm. exists t, Panic. now split. Qed.

Lemma resolveHeaderR_absent (apiR : Rel.APIR) (cur : Header) :
  Rel.CurrentHeaderR (Rel.chainR apiR) (Some cur) ->
  Rel.resolveHeaderR apiR None ([EvCurrentHeader], Ok cur).
Proof.
  intros Hcur. unfold Rel.resolveHeaderR.
  apply (bindR_ok _ _ [EvCurrentHeader] [] (Some cur) (Ok cur)).
  - exists (Some cur). now split.
  - apply (bindR_ok _ _ [] [] (Some cur) (Ok cur)); reflexivity.
  - reflexivity.
Qed.

Lemma GetSystemContractR_nil_head (core : CorePkg) (apiR : Rel.APIR)
    (name : string) (inputData : bytes) :
  String.eqb name "" = false ->
  Rel.CurrentHeaderR (Rel.chainR apiR) None ->
  Pack (MainABI (Rel.systemContractR (Rel.dposR apiR))) "getSystemContract"
       [ArgString name] = inr inputData ->
  Rel.GetSystemContractR core apiR name ([EvCurrentHeader], Panic).
Proof.
  intros Hname Hnil Hpack. unfold Rel.GetSystemContractR.
  rewrite Hname, Hpack.
  apply (bindR_ok _ _ [EvCurrentHeader] [] None Panic).
  - exists None. now split.
  - apply (bindR_ok _ _ [] [] inputData Panic).
    + reflexivity.
    + apply (bindR_panic _ _ []). reflexivity.
    + reflexivity.
  - reflexivity.
Qed.

(** X17. [GetAllProducers] and [GetVoteInfo] read the current header a
    second time, in [GetSystemContract], and use it unguarded: when the
    chain reader answers the first read with a header and the second with
    nil, and the lookup call packs, both operations panic after the
    header has resolved, having made the two reads and no evaluation
    call. *)
Theorem second_read_nil_panics (core : CorePkg) (apiR : Rel.APIR)
    (cur : Header) (inReg inVote : bytes) :
  Rel.CurrentHeaderR (Rel.chainR apiR) (Some cur) ->
  Rel.CurrentHeaderR (Rel.chainR apiR) None ->
  Pack (MainABI (Rel.systemContractR (Rel.dposR apiR))) "getSystemContract"
       [ArgString regContract] = inr inReg ->
  Pack (MainABI (Rel.systemContractR (Rel.dposR apiR))) "getSystemContract"
       [ArgString voteContract] = inr inVote ->
  (forall sizeNumber,
     Rel.GetAllProducersR core apiR None sizeNumber
       ([EvCurrentHeader; EvCurrentHeader], Panic)) /\
  (forall addr,
     Rel.GetVoteInfoR core apiR addr None
       ([EvCurrentHeader; EvCurrentHeader], Panic)).
Proof.
  intros Hcur Hnil Hreg Hvote. split.
  - intros sizeNumber. unfold Rel.GetAllProducersR.
    apply (bindR_ok _ _ [EvCurrentHeader] [EvCurrentHeader] cur Panic).
    + now apply resolveHeaderR_absent.
    + apply (bindR_panic _ _ [EvCurrentHeader]).
      unfold Rel.fetchProducersR.
      apply (bindR_panic _ _ [EvCurrentHeader]).
      exists ([EvCurrentHeader], Panic). split; [| reflexivity].
      now apply GetSystemContractR_nil_head with (inputData := inReg).
    + reflexivity.
  - intros addr. unfold Rel.GetVoteInfoR.
    apply (bindR_ok _ _ [EvCurrentHeader] [EvCurrentHeader] cur Panic).
    + now apply resolveHeaderR_absent.
    + apply (bindR_panic _ _ [EvCurrentHeader]).
      exists ([EvCurrentHeader], Panic). split; [| reflexivity].
      now apply GetSystemContractR_nil_head with (inputData := inVote).
    + reflexivity.
Qed.

Lemma second_read_nil_panics_witness :
  Rel.CurrentHeaderR (Rel.chainR Rel.apiVanishing) (Some (Demo.header_at 10)) /\
  Rel.CurrentHeaderR (Rel.chainR Rel.apiVanishing) None /\
  Rel.GetVoteInfoR Demo.coreABC Rel.apiVanishing (Some 11%N) None
    ([EvCurrentHeader; EvCurrentHeader], Panic).
Proof.
  assert (Hcur : Rel.CurrentHeaderR (Rel.chainR Rel.apiVanishing)
                   (Some (Demo.header_at 10))) by (left; reflexivity).
  assert (Hnil : Rel.CurrentHeaderR (Rel.chainR Rel.apiVanishing) None)
    by (right; reflexivity).
  split; [exact Hcur |]. split; [exact Hnil |].
  exact (proj2 (second_read_nil_panics Demo.coreABC Rel.apiVanishing
                  (Demo.header_at 10) _ _ Hcur Hnil eq_refl eq_refl)
           (Some 11%N)).
Defined.
